(** * Inventory service (main.js): shallow embedding and verified properties

    The service keeps an in-memory registry [inventoryDB] (a JavaScript
    object used as a map from id to item object) and photo files in a cache
    directory.  Item objects are shared, mutable JavaScript objects: handlers
    fetch a reference from the registry and assign to its fields, and
    [itemToClient] builds a fresh object with the spread syntax.  The
    embedding therefore keeps an explicit object heap, the registry as a map
    from id to heap location, and the files of the cache directory, and it
    records every effect in a chronological trace so that statements about
    the order of effects can be made.

    Modelling boundaries, all stated where they are used:
    - field values are [null] or strings (the OpenAPI annotations of the
      source type every field as a string), an absent field is [undefined];
    - the registry is modelled by its own properties.  In the source
      [inventoryDB[id]] also finds the members the registry inherits from
      [Object.prototype] ([constructor], [toString], [__proto__], ...): for
      such an id the guard [if (!item)] of a handler does not fire and the
      handler goes on with the inherited function.  These ids are named by
      [inherited]; the answer to an id that is not live, and the
      invariants of the live records along a run, are stated for ids that
      are not [inherited];
    - the body of an update is an object, its fields absent, [null] or
      strings; requests are served one after the other, and a photo is
      requested without range or conditional headers;
    - the outcome of [fs.unlink] and [fs.writeFile], the value of
      [crypto.randomUUID()], of [Date.now()] and of [process.cwd()], and
      what the multipart parser hands to its callback are inputs chosen by
      the environment;
    - of the libraries, the model keeps what the handlers rely on: the
      multipart parser stores the uploaded files before it calls back and
      destroys them when the parsing fails, and [res.sendFile] refuses a
      path with a dot segment or a NUL character. *)

From stdpp Require Import gmap strings list fin_maps pretty.
From Stdlib Require Import Strings.Ascii Strings.Byte.

(** ** JavaScript values and objects *)

Inductive jsval :=
  | JNull
  | JStr (s : string).

#[global] Instance jsval_eq_dec : EqDecision jsval.
Proof. solve_decision. Defined.

(** An object is a finite map from property names to values; an absent
    property reads as [undefined], which is [None] here. *)
Abbreviation obj := (gmap string jsval).
Abbreviation loc := positive.

(** ToBoolean on [undefined], [null] and strings. *)
Definition truthy (v : option jsval) : bool :=
  match v with
  | Some (JStr EmptyString) => false
  | Some (JStr _) => true
  | Some JNull => false
  | None => false
  end.

(** ToString, as performed by a template literal. *)
Definition js_to_string (v : option jsval) : string :=
  match v with
  | None => "undefined"
  | Some JNull => "null"
  | Some (JStr s) => s
  end.

(** [v || ''] followed by string concatenation. *)
Definition or_empty (v : option jsval) : string :=
  if truthy v then js_to_string v else "".

(** ** The world: heap, registry, cache directory, effect trace *)

Inductive event :=
  | EUnlink (p : string) (ok : bool)
  | EWriteFile (p : string) (ok : bool)
  | ESetField (l : loc) (k : string) (v : jsval)
  | EDeleteField (l : loc) (k : string)
  | EDbSet (id : string) (l : loc)
  | EDbDelete (id : string)
  | ELogError.

#[global] Instance event_eq_dec : EqDecision event.
Proof. solve_decision. Defined.

Record world := World {
  heap : gmap loc obj;
  inventoryDB : gmap string loc;
  disk : gmap string (list byte);
  trace : list event
}.

Definition empty_world : world := World ∅ ∅ ∅ [].

(** What the environment decides during one request. *)
Record env := MkEnv {
  process_cwd : string;
  options_cache : string;
  randomUUID : string;
  date_now : N;
  unlink_ok : bool;
  write_ok : bool
}.

(** An environment of the container image, whose [WORKDIR] is [/app]. *)
Abbreviation Env := (MkEnv "/app").

(** ** A state monad over the world *)

Definition M (A : Type) : Type := world → A * world.

#[global] Instance M_ret : MRet M := λ A a w, (a, w).
#[global] Instance M_bind : MBind M :=
  λ A B f m w, f (m w).1 (m w).2.

Definition emit (e : event) : M unit :=
  λ w, (tt, World (heap w) (inventoryDB w) (disk w) (trace w ++ [e])).

Definition set_heap (h : gmap loc obj) : M unit :=
  λ w, (tt, World h (inventoryDB w) (disk w) (trace w)).

Definition set_db (d : gmap string loc) : M unit :=
  λ w, (tt, World (heap w) d (disk w) (trace w)).

Definition set_disk (d : gmap string (list byte)) : M unit :=
  λ w, (tt, World (heap w) (inventoryDB w) d (trace w)).

Definition get_world : M world := λ w, (w, w).

(** The properties of the object at [l]. *)
Definition obj_at (w : world) (l : loc) : obj := default ∅ (heap w !! l).

(** Object primitives. *)

(** A new object with the given properties (object literal or spread). *)
Definition alloc (o : obj) : M loc :=
  w ← get_world;
  let l := fresh (dom (heap w)) in
  set_heap (<[l := o]> (heap w));;
  mret l.

(** [l.k] *)
Definition getf (l : loc) (k : string) : M (option jsval) :=
  w ← get_world; mret (obj_at w l !! k).

(** [l.k = v] *)
Definition setf (l : loc) (k : string) (v : jsval) : M unit :=
  w ← get_world;
  set_heap (alter (λ o : obj, <[k := v]> o) l (heap w));;
  emit (ESetField l k v).

(** [delete l.k] *)
Definition delf (l : loc) (k : string) : M unit :=
  w ← get_world;
  set_heap (alter (λ o : obj, delete k o) l (heap w));;
  emit (EDeleteField l k).

(** The properties of [l] at this moment (the spread [{...l}], and what
    [res.json] serialises). *)
Definition snapshot (l : loc) : M obj :=
  w ← get_world; mret (obj_at w l).

(** Registry primitives. *)

(** The property names every object literal inherits from
    [Object.prototype]. *)
Definition Object_prototype_members : list string :=
  ["constructor"; "__defineGetter__"; "__defineSetter__"; "hasOwnProperty";
   "__lookupGetter__"; "__lookupSetter__"; "isPrototypeOf";
   "propertyIsEnumerable"; "toString"; "valueOf"; "__proto__";
   "toLocaleString"].

(** The id names an inherited member of the registry object. *)
Definition inherited (id : string) : bool :=
  bool_decide (id ∈ Object_prototype_members).

(** What [inventoryDB[id]] evaluates to in the source, [Object.prototype]
    being as the runtime starts it: the own property, else the inherited
    member (a function, or the prototype itself), else [undefined]. *)
Inductive property :=
  | POwn (l : loc)
  | PInherited
  | PUndefined.

Definition js_get (w : world) (id : string) : property :=
  match inventoryDB w !! id with
  | Some l => POwn l
  | None => if inherited id then PInherited else PUndefined
  end.

(** [!item], the guard of the handlers. *)
Definition is_falsy (x : property) : bool :=
  match x with
  | PUndefined => true
  | POwn _ | PInherited => false
  end.

(** [inventoryDB[id]] on the own properties of the registry: the lookup of
    the source for every id that is not [inherited] ([db_get_js_get]).
    With an inherited member a handler of the source goes on where the
    handlers below answer 404. *)
Definition db_get (id : string) : M (option loc) :=
  w ← get_world; mret (inventoryDB w !! id).

(** [inventoryDB[id] = l] *)
Definition db_set (id : string) (l : loc) : M unit :=
  w ← get_world;
  set_db (<[id := l]> (inventoryDB w));;
  emit (EDbSet id l).

(** [delete inventoryDB[id]] *)
Definition db_delete (id : string) : M unit :=
  w ← get_world;
  set_db (delete id (inventoryDB w));;
  emit (EDbDelete id).

(** [Object.values(inventoryDB)] *)
Definition db_values : M (list loc) :=
  w ← get_world; mret ((map_to_list (inventoryDB w)).*2).

(** File-system primitives.  [fs.unlink p] removes the file when it exists
    and the environment lets the call succeed; otherwise the promise is
    rejected and the directory is unchanged. *)
Definition fs_unlink (e : env) (p : string) : M bool :=
  w ← get_world;
  match disk w !! p with
  | Some _ =>
      if unlink_ok e
      then set_disk (delete p (disk w));; emit (EUnlink p true);; mret true
      else emit (EUnlink p false);; mret false
  | None => emit (EUnlink p false);; mret false
  end.

(** [fs.writeFile p data] *)
Definition fs_writeFile (e : env) (p : string) (data : list byte) : M bool :=
  w ← get_world;
  if write_ok e
  then set_disk (<[p := data]> (disk w));; emit (EWriteFile p true);; mret true
  else emit (EWriteFile p false);; mret false.

(** [console.error] *)
Definition console_error : M unit := emit ELogError.

(** [fs.unlink(p).catch(console.error)] *)
Definition unlink_logged (e : env) (p : string) : M unit :=
  ok ← fs_unlink e p;
  if ok : bool then mret tt else console_error.

(** ** Presentation mapping *)

Definition photo_url (id : option jsval) : string :=
  "/inventory/" +:+ js_to_string id +:+ "/photo".

(** [itemToClient(item)] *)
Definition itemToClient (item : loc) : M loc :=
  o ← snapshot item;
  clientItem ← alloc o;
  photoPath ← getf clientItem "photoPath";
  (if truthy photoPath
   then id ← getf clientItem "id";
        setf clientItem "photoUrl" (JStr (photo_url id))
   else mret tt);;
  delf clientItem "photoPath";;
  mret clientItem.

(** ** Requests and responses *)

Inductive payload :=
  | BError (msg : string)
  | BMessage (msg : string)
  | BItem (view : obj)
  | BItems (views : list obj)
  | BFile (data : list byte)
  | BNone.

Record response := Response { status : nat; body : payload }.

(** A multipart field as the parser hands it over: one string or an array
    of strings; an uploaded file: its path in the cache directory and the
    bytes stored there. *)
Inductive field_val :=
  | FStr (s : string)
  | FArr (l : list string).

Record upload := Upload { filepath : string; content : list byte }.

Inductive file_val :=
  | FileOne (f : upload)
  | FileArr (l : list upload).

(** The arguments [(err, fields, files)] of the [form.parse] callback. *)
Record parsed := Parsed {
  p_err : bool;
  p_inventory_name : option field_val;
  p_description : option field_val;
  p_photo : option file_val
}.

(** [Array.isArray(x) ? x[0] : x] *)
Definition first_field (x : option field_val) : option jsval :=
  match x with
  | None => None
  | Some (FStr s) => Some (JStr s)
  | Some (FArr l) => JStr <$> head l
  end.

(** [files.photo ? (Array.isArray(files.photo) ? files.photo[0] : files.photo) : null] *)
Definition first_file (x : option file_val) : option upload :=
  match x with
  | None => None
  | Some (FileOne f) => Some f
  | Some (FileArr l) => head l
  end.

(** The JSON body of an update: each field absent, [null] or a string. *)
Record update_body := UpdateBody {
  b_name : option jsval;
  b_description : option jsval
}.

(** The property key an optional request parameter denotes. *)
Definition prop_key (id : option string) : string :=
  match id with Some s => s | None => "undefined" end.

(** [path.join(dir, name)], without normalisation of the result. *)
Definition path_join (dir name : string) : string := dir +:+ "/" +:+ name.

(** The pieces of a path between its separators. *)
Fixpoint segments (s : string) : list string :=
  match s with
  | EmptyString => [EmptyString]
  | String c s' =>
      match segments s' with
      | seg :: rest =>
          if Ascii.eqb c "/"%char then EmptyString :: seg :: rest
          else String c seg :: rest
      | [] => [String c EmptyString]
      end
  end.

(** Normalisation of the segments of an absolute path: empty segments and
    [.] are dropped, [..] removes the segment before it.  The segments are
    accumulated in reverse. *)
Definition normalize_step (acc : list string) (seg : string) : list string :=
  if bool_decide (seg = "" ∨ seg = ".") then acc
  else if bool_decide (seg = "..") then tail acc
  else seg :: acc.

Definition normalize (segs : list string) : list string :=
  reverse (foldl normalize_step [] segs).

Definition is_absolute (p : string) : bool :=
  match p with
  | String c _ => Ascii.eqb c "/"%char
  | EmptyString => false
  end.

(** The segments of [path.resolve(p)], [cwd] being the working directory
    of the process, an absolute path. *)
Definition path_resolve (cwd p : string) : list string :=
  normalize (if is_absolute p then segments p
             else segments cwd ++ segments p).

(** A segment longer than one character that begins with a dot. *)
Definition is_dotfile (seg : string) : bool :=
  match seg with
  | String c (String _ _) => Ascii.eqb c "."%char
  | _ => false
  end.

Fixpoint has_nul (s : string) : bool :=
  match s with
  | EmptyString => false
  | String c s' => Ascii.eqb c Ascii.zero || has_nul s'
  end.

(** [res.sendFile] gives up, before it looks for the file, on a path with
    a NUL character or with a dot segment (its [dotfiles] option is left at
    ['ignore']). *)
Definition sendFile_refuses (e : env) (p : string) : bool :=
  has_nul p || existsb is_dotfile (path_resolve (process_cwd e) p).

(** ** Handlers *)

Fixpoint mapM {A B} (f : A → M B) (l : list A) : M (list B) :=
  match l with
  | [] => mret []
  | x :: l' => y ← f x; ys ← mapM f l'; mret (y :: ys)
  end.

(** [if (v) l.k = v] *)
Definition set_if_truthy (l : loc) (k : string) (v : option jsval) : M unit :=
  match v with
  | Some x => if truthy v then setf l k x else mret tt
  | None => mret tt
  end.

Definition not_found : response := Response 404 (BError "Not Found").

(** [res.json(itemToClient(item))] with the given status. *)
Definition json_item (code : nat) (item : loc) : M response :=
  clientItem ← itemToClient item;
  view ← snapshot clientItem;
  mret (Response code (BItem view)).

(** The callback of [form.parse] in [app.post('/register')].  The unlink of
    the rejected upload is started without being awaited; the model runs it
    to completion within the request. *)
Definition register (e : env) (p : parsed) : M response :=
  if p_err p then mret (Response 500 (BError "Error parsing form data"))
  else
    let inventory_name := first_field (p_inventory_name p) in
    let description := first_field (p_description p) in
    let photo := first_file (p_photo p) in
    let reject : M response :=
      (match photo with
       | Some f => unlink_logged e (filepath f)
       | None => mret tt
       end);;
      mret (Response 400 (BError "inventory_name is required")) in
    match inventory_name with
    | Some name =>
        if negb (truthy inventory_name) then reject
        else
          let id := randomUUID e in
          newItem ← alloc (<["id" := JStr id]>
                          (<["name" := name]>
                          (<["description" := JStr (or_empty description)]>
                          (<["photoPath" := match photo with
                                            | Some f => JStr (filepath f)
                                            | None => JNull
                                            end]> ∅))));
          db_set id newItem;;
          json_item 201 newItem
    | None => reject
    end.

(** [app.get('/inventory')] *)
Definition get_inventory : M response :=
  items ← db_values;
  allItems ← mapM itemToClient items;
  views ← mapM snapshot allItems;
  mret (Response 200 (BItems views)).

(** [app.get('/inventory/:id')] *)
Definition get_item (id : string) : M response :=
  item ← db_get id;
  match item with
  | None => mret not_found
  | Some item => json_item 200 item
  end.

(** [app.put('/inventory/:id')] *)
Definition put_item (id : string) (b : update_body) : M response :=
  item ← db_get id;
  match item with
  | None => mret not_found
  | Some item =>
      set_if_truthy item "name" (b_name b);;
      set_if_truthy item "description" (b_description b);;
      db_set id item;;
      json_item 200 item
  end.

(** [app.delete('/inventory/:id')] *)
Definition delete_item (e : env) (id : string) : M response :=
  item ← db_get id;
  match item with
  | None => mret not_found
  | Some item =>
      photoPath ← getf item "photoPath";
      (if truthy photoPath
       then unlink_logged e (js_to_string photoPath)
       else mret tt);;
      db_delete id;;
      mret (Response 200 (BMessage ("Item " +:+ id +:+ " deleted")))
  end.

(** [res.sendFile(path.resolve(p), callback)]: the bytes sent, or [None]
    when the callback receives an error.  The file read is the one the
    file-system calls of the handlers name by [p]. *)
Definition sendFile (e : env) (p : string) : M (option (list byte)) :=
  w ← get_world;
  if sendFile_refuses e p then mret None else mret (disk w !! p).

(** [app.get('/inventory/:id/photo')] *)
Definition get_photo (e : env) (id : string) : M response :=
  item ← db_get id;
  match item with
  | None => mret not_found
  | Some item =>
      photoPath ← getf item "photoPath";
      if negb (truthy photoPath)
      then mret (Response 404 (BError "Photo Not Found"))
      else
        sent ← sendFile e (js_to_string photoPath);
        match sent with
        | Some data => mret (Response 200 (BFile data))
        | None => mret (Response 404 (BError "Photo file missing on server"))
        end
  end.

(** [app.put('/inventory/:id/photo')]; [chunks] are the pieces of the raw
    request body, and the body of the ['end'] listener runs right after the
    lookup of the item. *)
Definition put_photo (e : env) (id : string) (chunks : list (list byte))
  : M response :=
  item ← db_get id;
  match item with
  | None => mret not_found
  | Some item =>
      let newPhotoData := concat chunks in
      if (length newPhotoData =? 0)%nat
      then mret (Response 400 (BError "Empty photo data"))
      else
        photoPath ← getf item "photoPath";
        (if truthy photoPath
         then unlink_logged e (js_to_string photoPath)
         else mret tt);;
        let newPhotoPath :=
          path_join (options_cache e)
            ("photo_" +:+ id +:+ "_" +:+ pretty (date_now e) +:+ ".jpg") in
        ok ← fs_writeFile e newPhotoPath newPhotoData;
        if ok : bool
        then setf item "photoPath" (JStr newPhotoPath);;
             mret (Response 200 (BMessage "Photo updated"))
        else mret (Response 500 (BError "Failed to save photo"))
  end.

(** [app.get('/search')] *)
Definition get_search (id includePhoto : option string) : M response :=
  item ← db_get (prop_key id);
  match item with
  | None => mret not_found
  | Some item =>
      clientItem ← itemToClient item;
      photoUrl ← getf clientItem "photoUrl";
      (if bool_decide (includePhoto = Some "on") && truthy photoUrl
       then description ← getf clientItem "description";
            setf clientItem "description"
              (JStr (or_empty description +:+
                     " [Photo Link: " +:+ js_to_string photoUrl +:+ "]"))
       else mret tt);;
      view ← snapshot clientItem;
      mret (Response 200 (BItem view))
  end.

(** [app.post('/search')] *)
Definition post_search (id has_photo : option string) : M response :=
  item ← db_get (prop_key id);
  match item with
  | None => mret not_found
  | Some item =>
      clientItem ← itemToClient item;
      photoUrl ← getf clientItem "photoUrl";
      (if bool_decide (has_photo = Some "on") && truthy photoUrl
       then description ← getf clientItem "description";
            setf clientItem "description"
              (JStr (or_empty description +:+
                     " [Photo Link: " +:+ js_to_string photoUrl +:+ "]"))
       else mret tt);;
      view ← snapshot clientItem;
      mret (Response 200 (BItem view))
  end.

(** ** The router *)

Inductive request :=
  | PostRegister (p : parsed)
  | GetInventory
  | GetItem (id : string)
  | PutItem (id : string) (b : update_body)
  | DeleteItem (id : string)
  | GetPhoto (id : string)
  | PutPhoto (id : string) (chunks : list (list byte))
  | GetSearch (id includePhoto : option string)
  | PostSearch (id has_photo : option string)
  | Unmatched.

(** Every file the parser received for the field [photo]. *)
Definition uploads (x : option file_val) : list upload :=
  match x with
  | None => []
  | Some (FileOne f) => [f]
  | Some (FileArr l) => l
  end.

(** The effects of the multipart parser, which are the library's and not
    the handler's.  It writes every uploaded file under [uploadDir] before
    it calls back. *)
Definition form_store (p : parsed) : M unit :=
  mapM (λ f, w ← get_world;
             set_disk (<[filepath f := content f]> (disk w)))
       (uploads (p_photo p));;
  mret tt.

(** When the parsing fails, the parser destroys the files it has opened,
    which are then the files of [p_photo]: it unlinks each of them and
    ignores the outcome.  The unlinks are started after the callback has
    run; the model runs them to completion within the request. *)
Definition form_destroy (e : env) (p : parsed) : M unit :=
  mapM (λ f, fs_unlink e (filepath f)) (uploads (p_photo p));;
  mret tt.

(** [form.parse(req, callback)] *)
Definition form_parse (e : env) (p : parsed) (callback : M response)
  : M response :=
  form_store p;;
  x ← callback;
  (if p_err p then form_destroy e p else mret tt);;
  mret x.

Definition handle (e : env) (r : request) : M response :=
  match r with
  | PostRegister p => form_parse e p (register e p)
  | GetInventory => get_inventory
  | GetItem id => get_item id
  | PutItem id b => put_item id b
  | DeleteItem id => delete_item e id
  | GetPhoto id => get_photo e id
  | PutPhoto id chunks => put_photo e id chunks
  | GetSearch id includePhoto => get_search id includePhoto
  | PostSearch id has_photo => post_search id has_photo
  | Unmatched => mret (Response 405 BNone)
  end.

(** A run of the service: requests served one after the other, each with
    what the environment decided for it. *)
Fixpoint run (rs : list (env * request)) : M (list response) :=
  match rs with
  | [] => mret []
  | (e, r) :: rs' => x ← handle e r; xs ← run rs'; mret (x :: xs)
  end.

(** ** The effects of the handlers, as functions of the world *)

(** [fs.unlink]: the file is gone exactly when the call succeeds. *)
Definition unlink_succeeds (e : env) (w : world) (p : string) : bool :=
  bool_decide (is_Some (disk w !! p)) && unlink_ok e.

(** The effect of [if (photoPath) await fs.unlink(photoPath).catch(log)] on
    the files, and the events it leaves. *)
Definition released_disk (e : env) (w : world) (photoPath : option jsval)
  : gmap string (list byte) :=
  if truthy photoPath && unlink_succeeds e w (js_to_string photoPath)
  then delete (js_to_string photoPath) (disk w)
  else disk w.

Definition release_events (e : env) (w : world) (photoPath : option jsval)
  : list event :=
  if truthy photoPath
  then EUnlink (js_to_string photoPath)
               (unlink_succeeds e w (js_to_string photoPath))
       :: (if unlink_succeeds e w (js_to_string photoPath)
           then [] else [ELogError])
  else [].

(** The files once the parser has stored the uploads [fs], and once it has
    unlinked each of them. *)
Definition stored (fs : list upload) (d : gmap string (list byte))
  : gmap string (list byte) :=
  foldl (λ d f, <[filepath f := content f]> d) d fs.

Definition unlinked (fs : list upload) (d : gmap string (list byte))
  : gmap string (list byte) :=
  foldl (λ d f, delete (filepath f) d) d fs.

(** The events the parser leaves when it destroys the uploads [fs], the
    files being [d]. *)
Fixpoint destroy_events (e : env) (d : gmap string (list byte))
    (fs : list upload) : list event :=
  match fs with
  | [] => []
  | f :: fs' =>
      EUnlink (filepath f)
              (bool_decide (is_Some (d !! filepath f)) && unlink_ok e)
      :: destroy_events e (if unlink_ok e then delete (filepath f) d else d)
           fs'
  end.

(** [path.join(options.cache, `photo_${id}_${Date.now()}.jpg`)] *)
Definition new_photo_path (e : env) (id : string) : string :=
  path_join (options_cache e)
    ("photo_" +:+ id +:+ "_" +:+ pretty (date_now e) +:+ ".jpg").

(** The view [itemToClient] builds from the properties [o] of an item. *)
Definition client_view (o : obj) : obj :=
  delete "photoPath"
    (if truthy (o !! "photoPath")
     then <["photoUrl" := JStr (photo_url (o !! "id"))]> o
     else o).

(** The trace [itemToClient] leaves for the fresh object [c]. *)
Definition client_events (c : loc) (o : obj) : list event :=
  (if truthy (o !! "photoPath")
   then [ESetField c "photoUrl" (JStr (photo_url (o !! "id")))]
   else []) ++ [EDeleteField c "photoPath"].

(** [if (v) o.k = v] on the properties of one object. *)
Definition assign_if_truthy (k : string) (v : option jsval) (o : obj) : obj :=
  match v with
  | Some x => if truthy v then <[k := x]> o else o
  | None => o
  end.

(** The events of [if (v) l.k = v]. *)
Definition assign_events (l : loc) (k : string) (v : option jsval)
  : list event :=
  match v with
  | Some x => if truthy v then [ESetField l k x] else []
  | None => []
  end.

(** The description a search answers with when the link is appended. *)
Definition with_photo_link (v : obj) : jsval :=
  JStr (or_empty (v !! "description") +:+
        " [Photo Link: " +:+ js_to_string (v !! "photoUrl") +:+ "]").

(** The view a search builds from the properties [o] of the item found. *)
Definition search_view (flag : option string) (o : obj) : obj :=
  if bool_decide (flag = Some "on") && truthy (client_view o !! "photoUrl")
  then <["description" := with_photo_link (client_view o)]> (client_view o)
  else client_view o.

Definition search_events (flag : option string) (c : loc) (o : obj)
  : list event :=
  client_events c o ++
  (if bool_decide (flag = Some "on") && truthy (client_view o !! "photoUrl")
   then [ESetField c "description" (with_photo_link (client_view o))]
   else []).

(** ** Item records *)

(** An item record as [app.post('/register')] builds it: four properties,
    [photoPath] being [null] or the path of the photo file. *)
Record item := Item {
  item_id : string;
  item_name : string;
  item_description : string;
  item_photoPath : option string
}.

Definition path_val (p : option string) : jsval :=
  match p with Some s => JStr s | None => JNull end.

Definition item_obj (r : item) : obj :=
  <["id" := JStr (item_id r)]>
  (<["name" := JStr (item_name r)]>
  (<["description" := JStr (item_description r)]>
  (<["photoPath" := path_val (item_photoPath r)]> ∅))).

(** The client view of an item record: the JSON shape
    [{id, name, description, photoUrl?}]. *)
Definition item_view (r : item) : obj :=
  let base : obj :=
    <["id" := JStr (item_id r)]>
    (<["name" := JStr (item_name r)]>
    (<["description" := JStr (item_description r)]> ∅)) in
  match item_photoPath r with
  | Some _ =>
      <["photoUrl" := JStr ("/inventory/" +:+ item_id r +:+ "/photo")]> base
  | None => base
  end.

(** The record [app.post('/register')] creates from an accepted form. *)
Definition new_item (e : env) (p : parsed) : item :=
  Item (randomUUID e)
       (js_to_string (first_field (p_inventory_name p)))
       (or_empty (first_field (p_description p)))
       (filepath <$> first_file (p_photo p)).

(** What a request field holds when it is provided and non-empty. *)
Definition provided (v : option jsval) (s : string) : Prop :=
  v = Some (JStr s) ∧ s ≠ "".

(** A request field that is absent or empty. *)
Definition absent_or_empty (v : option jsval) : Prop :=
  v = None ∨ v = Some JNull ∨ v = Some (JStr "").

(** The value a string field has after [if (v) item.k = v]. *)
Definition updated (old : string) (v : option jsval) : string :=
  match v with
  | Some (JStr s) => if truthy v then s else old
  | _ => old
  end.

(** ** Well-formed worlds *)

(** [w'] keeps the registry, the files and every object of [w]; it may
    hold more objects. *)
Definition extends (w w' : world) : Prop :=
  inventoryDB w' = inventoryDB w ∧
  disk w' = disk w ∧
  ∀ l o, heap w !! l = Some o → heap w' !! l = Some o.

(** Every id of the registry maps to an object of the heap. *)
Definition all_live (w : world) : Prop :=
  ∀ id l, inventoryDB w !! id = Some l → is_Some (heap w !! l).

(** The registry is well formed: every id maps to an item record that
    carries this id and a non-empty name, and whose photo path, if any,
    satisfies [P]. *)
Definition db_ok (P : string → Prop) (w : world) : Prop :=
  ∀ id l, inventoryDB w !! id = Some l →
    ∃ r, heap w !! l = Some (item_obj r) ∧
         item_id r = id ∧
         item_name r ≠ "" ∧
         ∀ p, item_photoPath r = Some p → P p.

(** The paths of the files a request uploads satisfy [P]. *)
Definition request_paths (P : string → Prop) (r : request) : Prop :=
  match r with
  | PostRegister p => ∀ f, first_file (p_photo p) = Some f → P (filepath f)
  | _ => True
  end.

(** The live record [id] refers to the photo file [p]. *)
Definition owns (w : world) (id p : string) : Prop :=
  ∃ l, inventoryDB w !! id = Some l ∧
       obj_at w l !! "photoPath" = Some (JStr p) ∧
       p ≠ "".

(** No live record refers to a photo file that is not in the cache
    directory. *)
Definition no_dangling (w : world) : Prop :=
  ∀ id l p,
    inventoryDB w !! id = Some l →
    obj_at w l !! "photoPath" = Some (JStr p) →
    p ≠ "" →
    is_Some (disk w !! p).

(** No photo file is referred to by two live records. *)
Definition unshared (w : world) : Prop :=
  ∀ id1 id2 p, owns w id1 p → owns w id2 p → id1 = id2.

(** The file names the environment produces during the request do not
    collide with a photo of another record: the path the multipart parser
    chose for an upload, and the path built from the id and [Date.now()]. *)
Definition fresh_names (e : env) (r : request) (w : world) : Prop :=
  match r with
  | PostRegister p =>
      ∀ f, f ∈ uploads (p_photo p) → ∀ id, ¬ owns w id (filepath f)
  | PutPhoto id _ =>
      ∀ id', id' ≠ id → ¬ owns w id' (new_photo_path e id)
  | _ => True
  end.

(** The request is a photo replacement that reaches [fs.writeFile] and
    whose write fails. *)
Definition failed_photo_write (e : env) (r : request) (w : world) : Prop :=
  match r with
  | PutPhoto id chunks =>
      is_Some (inventoryDB w !! id) ∧ concat chunks ≠ [] ∧ write_ok e = false
  | _ => False
  end.

(** Along the run, the file names are fresh and no photo write fails. *)
Fixpoint well_behaved (rs : list (env * request)) (w : world) : Prop :=
  match rs with
  | [] => True
  | (e, r) :: rs' =>
      fresh_names e r w ∧
      ¬ failed_photo_write e r w ∧
      well_behaved rs' (handle e r w).2
  end.

(** No view of the payload has a [photoPath] property. *)
Definition hides_path (b : payload) : Prop :=
  match b with
  | BItem v => v !! "photoPath" = None
  | BItems views => Forall (λ v : obj, v !! "photoPath" = None) views
  | _ => True
  end.

(** ** Listings and traces *)

(** The id a view carries. *)
Definition view_id (v : obj) : option string :=
  match v !! "id" with
  | Some (JStr s) => Some s
  | _ => None
  end.

(** The ids that [GET /inventory] lists in world [w]. *)
Definition listed (w : world) : list string :=
  match body (get_inventory w).1 with
  | BItems views => omap view_id views
  | _ => []
  end.

(** The id a registration returned, if it created an item. *)
Definition returned_id (x : response) : list string :=
  match body x with
  | BItem v => if (status x =? 201)%nat then option_list (view_id v) else []
  | _ => []
  end.

(** The ids returned by the registrations of a run, in order. *)
Fixpoint created_ids (rs : list (env * request)) (w : world) : list string :=
  match rs with
  | [] => []
  | (e, r) :: rs' =>
      (match r with
       | PostRegister _ => returned_id (handle e r w).1
       | _ => []
       end) ++ created_ids rs' (handle e r w).2
  end.

(** The events a run added to the trace. *)
Definition new_events (w w' : world) : list event :=
  drop (length (trace w)) (trace w').

(** [P] holds of an event of the trace before [Q] holds of a later one. *)
Fixpoint occurs_before (P Q : event → bool) (t : list event) : bool :=
  match t with
  | [] => false
  | x :: t' => (P x && existsb Q t') || occurs_before P Q t'
  end.

Definition is_write (x : event) : bool :=
  match x with EWriteFile _ _ => true | _ => false end.

Definition is_unlink (x : event) : bool :=
  match x with EUnlink _ _ => true | _ => false end.

(** ** Concrete inputs *)

Definition env0 : env := Env "/cache" "id-1" 1700000000000 true true.

(** An environment in which [fs.writeFile] fails, and one in which
    [fs.unlink] fails. *)
Definition env_write_fails : env :=
  Env "/cache" "id-2" 1700000000001 true false.

Definition env_unlink_fails : env :=
  Env "/cache" "id-2" 1700000000001 false true.

Definition widget : parsed :=
  Parsed false (Some (FArr ["Widget"])) None None.

Definition widget_with_photo : parsed :=
  Parsed false (Some (FArr ["Widget"])) (Some (FArr ["blue"]))
         (Some (FileArr [Upload "/cache/up1.png" [x01; x02]])).

(** The world after registering a widget with a photo, and its record. *)
Definition w_photo : world :=
  (handle env0 (PostRegister widget_with_photo) empty_world).2.

Definition item_photo : item :=
  Item "id-1" "Widget" "blue" (Some "/cache/up1.png").

(** Forms that came with an upload: one whose parsing failed, one without
    a name. *)
Definition form_parse_failed : parsed :=
  Parsed true None None (Some (FileArr [Upload "/cache/up1.png" [x01; x02]])).

Definition form_without_name : parsed :=
  Parsed false None None (Some (FileArr [Upload "/cache/up1.png" [x01; x02]])).

(** A form without a name whose [photo] field came with two files. *)
Definition form_two_photos : parsed :=
  Parsed false None None
         (Some (FileArr [Upload "/cache/up1.png" [x01; x02];
                         Upload "/cache/up2.png" [x03]])).

(** A registration whose upload the parser stored under a directory whose
    name begins with a dot, and the world after it. *)
Definition widget_hidden_photo : parsed :=
  Parsed false (Some (FArr ["Widget"])) (Some (FArr ["blue"]))
         (Some (FileArr [Upload "/cache/.hidden/up1.png" [x01; x02]])).

Definition w_hidden : world :=
  (handle env0 (PostRegister widget_hidden_photo) empty_world).2.

(** The world after a second registration, of a widget without a photo. *)
Definition env_second : env := Env "/cache" "id-2" 1700000000001 true true.

Definition w_two : world :=
  (handle env_second (PostRegister widget) w_photo).2.

(** The registry key a request looks up or assigns, if any. *)
Definition registry_key (e : env) (r : request) : option string :=
  match r with
  | PostRegister _ => Some (randomUUID e)
  | GetItem id | PutItem id _ | DeleteItem id
  | GetPhoto id | PutPhoto id _ => Some id
  | GetSearch id _ | PostSearch id _ => Some (prop_key id)
  | GetInventory | Unmatched => None
  end.

(** The request uses no key that names an inherited member of the
    registry: its handler meets own properties only. *)
Definition own_keys (x : env * request) : bool :=
  match registry_key x.1 x.2 with
  | Some id => negb (inherited id)
  | None => true
  end.

(** The requests whose handlers only read the registry and the files. *)
Definition reads_only (r : request) : bool :=
  match r with
  | GetInventory | GetItem _ | GetPhoto _
  | GetSearch _ _ | PostSearch _ _ | Unmatched => true
  | PostRegister _ | PutItem _ _ | DeleteItem _ | PutPhoto _ _ => false
  end.

(** The id whose record a request may create, change or remove. *)
Definition writes_to (e : env) (r : request) : option string :=
  match r with
  | PostRegister _ => Some (randomUUID e)
  | PutItem id _ | DeleteItem id | PutPhoto id _ => Some id
  | _ => None
  end.

(** ** Reasoning about the primitives *)

Section run_equations.
Context {A B : Type}.
Implicit Types (w : world) (l : loc) (k : string).

Lemma bind_run (m : M A) (f : A → M B) w :
  (m ≫= f) w = f (m w).1 (m w).2.
Proof. reflexivity. Qed.

Lemma ret_run (a : A) w : (mret a : M A) w = (a, w).
Proof. reflexivity. Qed.
End run_equations.

Lemma mapM_cons {A B} (f : A → M B) x l w :
  mapM f (x :: l) w =
    ((f x w).1 :: (mapM f l (f x w).2).1, (mapM f l (f x w).2).2).
Proof. reflexivity. Qed.

Lemma emit_run e w :
  emit e w = (tt, World (heap w) (inventoryDB w) (disk w) (trace w ++ [e])).
Proof. reflexivity. Qed.

Lemma alloc_run o w :
  alloc o w = (fresh (dom (heap w)),
               World (<[fresh (dom (heap w)) := o]> (heap w))
                     (inventoryDB w) (disk w) (trace w)).
Proof. reflexivity. Qed.

Lemma getf_run l k w : getf l k w = (obj_at w l !! k, w).
Proof. reflexivity. Qed.

Lemma setf_run l k v w :
  setf l k v w = (tt, World (alter (λ o : obj, <[k := v]> o) l (heap w))
                            (inventoryDB w) (disk w)
                            (trace w ++ [ESetField l k v])).
Proof. reflexivity. Qed.

Lemma delf_run l k w :
  delf l k w = (tt, World (alter (λ o : obj, delete k o) l (heap w))
                          (inventoryDB w) (disk w)
                          (trace w ++ [EDeleteField l k])).
Proof. reflexivity. Qed.

Lemma snapshot_run l w : snapshot l w = (obj_at w l, w).
Proof. reflexivity. Qed.

Lemma db_get_run id w : db_get id w = (inventoryDB w !! id, w).
Proof. reflexivity. Qed.

(** On the ids that do not name an inherited member, the lookup of the
    model is the lookup of the source; on the others the guard [!item] of
    the source does not fire. *)
Lemma db_get_js_get id w :
  inherited id = false →
  js_get w id = from_option POwn PUndefined (db_get id w).1.
Proof.
  intros Hid. unfold js_get. rewrite db_get_run, Hid. cbn [fst].
  by destruct (inventoryDB w !! id).
Qed.

Lemma inherited_guard_passes id w :
  inherited id = true → is_falsy (js_get w id) = false.
Proof.
  intros Hid. unfold js_get. rewrite Hid. by destruct (inventoryDB w !! id).
Qed.

Example constructor_is_found :
  js_get empty_world "constructor" = PInherited ∧
  is_falsy (js_get empty_world "constructor") = false.
Proof. split; reflexivity. Qed.

Lemma db_set_run id l w :
  db_set id l w = (tt, World (heap w) (<[id := l]> (inventoryDB w)) (disk w)
                             (trace w ++ [EDbSet id l])).
Proof. reflexivity. Qed.

Lemma db_delete_run id w :
  db_delete id w = (tt, World (heap w) (delete id (inventoryDB w)) (disk w)
                              (trace w ++ [EDbDelete id])).
Proof. reflexivity. Qed.

Lemma db_values_run w : db_values w = ((map_to_list (inventoryDB w)).*2, w).
Proof. reflexivity. Qed.

Lemma get_world_run w : get_world w = (w, w).
Proof. reflexivity. Qed.

Lemma console_error_run w :
  console_error w
  = (tt, World (heap w) (inventoryDB w) (disk w) (trace w ++ [ELogError])).
Proof. reflexivity. Qed.

Lemma fs_unlink_run e p w :
  fs_unlink e p w =
    (unlink_succeeds e w p,
     World (heap w) (inventoryDB w)
           (if unlink_succeeds e w p then delete p (disk w) else disk w)
           (trace w ++ [EUnlink p (unlink_succeeds e w p)])).
Proof.
  unfold fs_unlink, unlink_succeeds. rewrite bind_run, get_world_run. simpl.
  destruct (disk w !! p) as [data|] eqn:Hp.
  - rewrite bool_decide_eq_true_2 by eauto. simpl.
    destruct (unlink_ok e); reflexivity.
  - rewrite bool_decide_eq_false_2 by (intros [? ?]; discriminate).
    reflexivity.
Qed.

Lemma unlink_logged_run e p w :
  unlink_logged e p w =
    (tt,
     World (heap w) (inventoryDB w)
           (if unlink_succeeds e w p then delete p (disk w) else disk w)
           (trace w ++ EUnlink p (unlink_succeeds e w p)
                    :: (if unlink_succeeds e w p then [] else [ELogError]))).
Proof.
  unfold unlink_logged. rewrite bind_run, fs_unlink_run. simpl.
  destruct (unlink_succeeds e w p); simpl.
  - rewrite ret_run. reflexivity.
  - rewrite console_error_run. simpl. rewrite <- app_assoc. reflexivity.
Qed.

Lemma fs_writeFile_run e p data w :
  fs_writeFile e p data w =
    (write_ok e,
     World (heap w) (inventoryDB w)
           (if write_ok e then <[p := data]> (disk w) else disk w)
           (trace w ++ [EWriteFile p (write_ok e)])).
Proof.
  unfold fs_writeFile. rewrite bind_run, get_world_run. simpl.
  destruct (write_ok e); reflexivity.
Qed.

Lemma sendFile_run e p w :
  sendFile e p w = (if sendFile_refuses e p then None else disk w !! p, w).
Proof.
  unfold sendFile. rewrite bind_run, get_world_run. cbn [fst snd].
  by destruct (sendFile_refuses e p).
Qed.

Create Rewrite HintDb mrun.
#[local] Hint Rewrite @bind_run @ret_run emit_run alloc_run getf_run setf_run
  delf_run snapshot_run db_get_run db_set_run db_delete_run db_values_run
  get_world_run console_error_run unlink_logged_run fs_writeFile_run : mrun.

Ltac msimpl :=
  repeat (autorewrite with mrun;
          cbn [fst snd heap inventoryDB disk trace status body]).

Lemma fresh_loc_unused (w : world) : heap w !! fresh (dom (heap w)) = None.
Proof. apply not_elem_of_dom, is_fresh. Qed.

Lemma obj_at_insert_eq h d f t l o : obj_at (World (<[l := o]> h) d f t) l = o.
Proof. unfold obj_at. simpl. by rewrite lookup_insert_eq. Qed.

Lemma itemToClient_run (l : loc) (w : world) :
  itemToClient l w =
    (fresh (dom (heap w)),
     World (<[fresh (dom (heap w)) := client_view (obj_at w l)]> (heap w))
           (inventoryDB w) (disk w)
           (trace w ++ client_events (fresh (dom (heap w))) (obj_at w l))).
Proof.
  unfold itemToClient, client_view, client_events.
  set (c := fresh (dom (heap w))). set (o := obj_at w l).
  msimpl. fold c o. rewrite obj_at_insert_eq.
  destruct (truthy (o !! "photoPath")); msimpl.
  - rewrite obj_at_insert_eq, !alter_insert_eq, <- app_assoc. reflexivity.
  - rewrite alter_insert_eq. reflexivity.
Qed.

Lemma json_item_run code l w :
  json_item code l w =
    (Response code (BItem (client_view (obj_at w l))),
     World (<[fresh (dom (heap w)) := client_view (obj_at w l)]> (heap w))
           (inventoryDB w) (disk w)
           (trace w ++ client_events (fresh (dom (heap w))) (obj_at w l))).
Proof.
  unfold json_item. msimpl. rewrite itemToClient_run. msimpl.
  by rewrite obj_at_insert_eq.
Qed.

(** *** Item records as objects *)

Lemma item_obj_id r : item_obj r !! "id" = Some (JStr (item_id r)).
Proof. reflexivity. Qed.
Lemma item_obj_name r : item_obj r !! "name" = Some (JStr (item_name r)).
Proof. reflexivity. Qed.
Lemma item_obj_description r :
  item_obj r !! "description" = Some (JStr (item_description r)).
Proof. reflexivity. Qed.
Lemma item_obj_photoPath r :
  item_obj r !! "photoPath" = Some (path_val (item_photoPath r)).
Proof. reflexivity. Qed.
Lemma item_obj_set_photoPath r p :
  <["photoPath" := JStr p]> (item_obj r)
  = item_obj (Item (item_id r) (item_name r) (item_description r) (Some p)).
Proof. reflexivity. Qed.

Lemma item_obj_inj r1 r2 : item_obj r1 = item_obj r2 → r1 = r2.
Proof.
  intros H. destruct r1 as [i1 n1 d1 p1], r2 as [i2 n2 d2 p2].
  pose proof (f_equal (.!! "id") H) as Hi.
  pose proof (f_equal (.!! "name") H) as Hn.
  pose proof (f_equal (.!! "description") H) as Hd.
  pose proof (f_equal (.!! "photoPath") H) as Hp.
  rewrite !item_obj_id in Hi. rewrite !item_obj_name in Hn.
  rewrite !item_obj_description in Hd. rewrite !item_obj_photoPath in Hp.
  simpl in *. simplify_eq. f_equal.
  destruct p1, p2; simpl in *; congruence.
Qed.

Lemma set_if_truthy_run l k v w :
  set_if_truthy l k v w =
    (tt, World (alter (assign_if_truthy k v) l (heap w))
               (inventoryDB w) (disk w) (trace w ++ assign_events l k v)).
Proof.
  unfold set_if_truthy, assign_if_truthy, assign_events.
  destruct w as [h d f t].
  destruct v as [x|]; [destruct (truthy (Some x))|]; msimpl;
    rewrite ?app_nil_r; try reflexivity;
    by rewrite alter_id.
Qed.

#[local] Hint Rewrite set_if_truthy_run itemToClient_run json_item_run : mrun.

(** *** The handlers on a missing id *)

Lemma put_item_missing id b w :
  inventoryDB w !! id = None → put_item id b w = (not_found, w).
Proof. intros H. unfold put_item. msimpl. by rewrite H. Qed.

Lemma delete_item_missing e id w :
  inventoryDB w !! id = None → delete_item e id w = (not_found, w).
Proof. intros H. unfold delete_item. msimpl. by rewrite H. Qed.

Lemma put_photo_missing e id chunks w :
  inventoryDB w !! id = None → put_photo e id chunks w = (not_found, w).
Proof. intros H. unfold put_photo. msimpl. by rewrite H. Qed.

(** *** The handlers on a live id *)

Lemma put_item_found id b l w :
  inventoryDB w !! id = Some l →
  put_item id b w =
    json_item 200 l
      (World (alter (assign_if_truthy "description" (b_description b)
                     ∘ assign_if_truthy "name" (b_name b)) l (heap w))
             (inventoryDB w) (disk w)
             (trace w ++ assign_events l "name" (b_name b)
                      ++ assign_events l "description" (b_description b)
                      ++ [EDbSet id l])).
Proof.
  intros H. unfold put_item. rewrite bind_run, db_get_run. cbn [fst snd].
  rewrite H. rewrite !bind_run, !set_if_truthy_run. cbn [fst snd].
  rewrite db_set_run. cbn [fst snd heap inventoryDB disk trace].
  rewrite alter_alter_eq, insert_id by done.
  by rewrite <- !app_assoc.
Qed.



(** The two cases of an update field cover every request. *)
Lemma provided_or_absent v : (∃ s, provided v s) ∨ absent_or_empty v.
Proof.
  destruct v as [[|[|a s]]|]; unfold absent_or_empty, provided; eauto 6.
Qed.

Lemma assign_name r v :
  assign_if_truthy "name" v (item_obj r)
  = item_obj (Item (item_id r) (updated (item_name r) v)
                   (item_description r) (item_photoPath r)).
Proof. destruct r, v as [[|[|a s]]|]; reflexivity. Qed.

Lemma assign_description r v :
  assign_if_truthy "description" v (item_obj r)
  = item_obj (Item (item_id r) (item_name r)
                   (updated (item_description r) v) (item_photoPath r)).
Proof. destruct r, v as [[|[|a s]]|]; reflexivity. Qed.

Lemma fresh_loc_ne w l : is_Some (heap w !! l) → fresh (dom (heap w)) ≠ l.
Proof.
  intros Hl Heq. rewrite <- Heq, fresh_loc_unused in Hl. by destruct Hl.
Qed.

(** ** Partial update *)


Lemma delete_item_found e id l w :
  inventoryDB w !! id = Some l →
  delete_item e id w =
    (Response 200 (BMessage ("Item " +:+ id +:+ " deleted")),
     World (heap w) (delete id (inventoryDB w))
           (released_disk e w (obj_at w l !! "photoPath"))
           (trace w ++ release_events e w (obj_at w l !! "photoPath")
                    ++ [EDbDelete id])).
Proof.
  intros H. unfold delete_item, released_disk, release_events.
  rewrite bind_run, db_get_run. cbn [fst snd]. rewrite H.
  rewrite bind_run, getf_run. cbn [fst snd].
  destruct (truthy (obj_at w l !! "photoPath")); msimpl.
  - destruct (unlink_succeeds e w _); simpl; by rewrite <- !app_assoc.
  - reflexivity.
Qed.

Lemma put_photo_empty e id l chunks w :
  inventoryDB w !! id = Some l →
  concat chunks = [] →
  put_photo e id chunks w = (Response 400 (BError "Empty photo data"), w).
Proof.
  intros H Hc. unfold put_photo. rewrite bind_run, db_get_run. cbn [fst snd].
  rewrite H, Hc. reflexivity.
Qed.

Lemma put_photo_found e id l chunks w :
  inventoryDB w !! id = Some l →
  concat chunks ≠ [] →
  put_photo e id chunks w =
    (if write_ok e
     then Response 200 (BMessage "Photo updated")
     else Response 500 (BError "Failed to save photo"),
     World (if write_ok e
            then alter (λ o : obj, <["photoPath" := JStr (new_photo_path e id)]> o)
                       l (heap w)
            else heap w)
           (inventoryDB w)
           (if write_ok e
            then <[new_photo_path e id := concat chunks]>
                   (released_disk e w (obj_at w l !! "photoPath"))
            else released_disk e w (obj_at w l !! "photoPath"))
           (trace w ++ release_events e w (obj_at w l !! "photoPath")
              ++ EWriteFile (new_photo_path e id) (write_ok e)
              :: (if write_ok e
                  then [ESetField l "photoPath" (JStr (new_photo_path e id))]
                  else []))).
Proof.
  intros H Hc. unfold put_photo, released_disk, release_events.
  rewrite bind_run, db_get_run. cbn [fst snd]. rewrite H.
  destruct (concat chunks) as [|b bs] eqn:Hd; [done|]. cbn [length Nat.eqb].
  fold (new_photo_path e id).
  rewrite bind_run, getf_run. cbn [fst snd].
  destruct (truthy (obj_at w l !! "photoPath")); msimpl.
  - destruct (unlink_succeeds e w _), (write_ok e); msimpl;
      by rewrite <- ?app_assoc.
  - destruct (write_ok e); msimpl; by rewrite <- ?app_assoc.
Qed.

Lemma obj_at_Some w l o : heap w !! l = Some o → obj_at w l = o.
Proof. intros H. unfold obj_at. by rewrite H. Qed.

Lemma photoPath_of_item w l r :
  heap w !! l = Some (item_obj r) →
  obj_at w l !! "photoPath" = Some (path_val (item_photoPath r)).
Proof. intros H. by rewrite (obj_at_Some _ _ _ H). Qed.

Lemma release_events_item e w p :
  p ≠ Some "" →
  release_events e w (Some (path_val p)) =
    match p with
    | Some s => EUnlink s (unlink_succeeds e w s)
                :: (if unlink_succeeds e w s then [] else [ELogError])
    | None => []
    end.
Proof. destruct p as [[|a s]|]; done. Qed.

Lemma released_disk_item e w p :
  p ≠ Some "" →
  released_disk e w (Some (path_val p)) =
    match p with
    | Some s => if unlink_succeeds e w s then delete s (disk w) else disk w
    | None => disk w
    end.
Proof. destruct p as [[|a s]|]; done. Qed.

(** ** Deleting an item *)

(** C5, on the ids that do not name an inherited member of the registry.
    [DELETE /inventory/:id] answers 404 and changes nothing when no live
    record has the id.  For a live record it first unlinks the photo file,
    if the record has one, logs a failure of that unlink without giving up,
    then removes the record from the registry, and answers 200 whether or
    not the unlink succeeded. *)
Theorem delete_item_best_effort e w id :
  (inventoryDB w !! id = None → inherited id = false →
   delete_item e id w = (not_found, w)) ∧
  (∀ l r,
     inventoryDB w !! id = Some l →
     heap w !! l = Some (item_obj r) →
     item_photoPath r ≠ Some "" →
     (delete_item e id w).1
       = Response 200 (BMessage ("Item " +:+ id +:+ " deleted")) ∧
     inventoryDB (delete_item e id w).2 = delete id (inventoryDB w) ∧
     heap (delete_item e id w).2 = heap w ∧
     match item_photoPath r with
     | Some p =>
         trace (delete_item e id w).2
           = trace w ++ EUnlink p (unlink_succeeds e w p)
               :: (if unlink_succeeds e w p then [] else [ELogError])
               ++ [EDbDelete id] ∧
         disk (delete_item e id w).2
           = if unlink_succeeds e w p then delete p (disk w) else disk w
     | None =>
         trace (delete_item e id w).2 = trace w ++ [EDbDelete id] ∧
         disk (delete_item e id w).2 = disk w
     end).
Proof.
  split; [intros Hid _; by apply delete_item_missing|].
  intros l r Hid Hl Hp. rewrite (delete_item_found e id l) by done.
  cbn [fst snd heap inventoryDB disk trace].
  rewrite (photoPath_of_item _ _ _ Hl), release_events_item,
    released_disk_item by done.
  destruct (item_photoPath r); done.
Qed.

(** ** Replacing a photo *)

(** C9. [PUT /inventory/:id/photo] with an empty body on a live record
    answers 400 and leaves the whole world as it was: every object, the
    registry, every file, and no effect is recorded. *)
Theorem put_photo_empty_body_unchanged e w id l chunks :
  inventoryDB w !! id = Some l →
  concat chunks = [] →
  put_photo e id chunks w = (Response 400 (BError "Empty photo data"), w).
Proof. apply put_photo_empty. Qed.

(** C1, as the code has it.  For an item that has a photo, a photo
    replacement with a non-empty body whose write succeeds first unlinks
    the previous file (a failure of that unlink is logged and ignored),
    then writes the new file, then assigns the new path to the record, in
    that order, and answers 200. *)
Theorem put_photo_effect_order e w id l r p chunks :
  inventoryDB w !! id = Some l →
  heap w !! l = Some (item_obj r) →
  item_photoPath r = Some p →
  p ≠ "" →
  concat chunks ≠ [] →
  write_ok e = true →
  (put_photo e id chunks w).1 = Response 200 (BMessage "Photo updated") ∧
  trace (put_photo e id chunks w).2
    = trace w ++ EUnlink p (unlink_succeeds e w p)
        :: (if unlink_succeeds e w p then [] else [ELogError])
        ++ [EWriteFile (new_photo_path e id) true;
            ESetField l "photoPath" (JStr (new_photo_path e id))] ∧
  heap (put_photo e id chunks w).2 !! l
    = Some (item_obj (Item (item_id r) (item_name r) (item_description r)
                           (Some (new_photo_path e id)))) ∧
  disk (put_photo e id chunks w).2 !! new_photo_path e id
    = Some (concat chunks).
Proof.
  intros Hid Hl Hp Hne Hc Hw.
  rewrite (put_photo_found e id l) by done. rewrite Hw.
  cbn [fst snd heap inventoryDB disk trace].
  rewrite (photoPath_of_item _ _ _ Hl), release_events_item
    by (rewrite Hp; congruence).
  rewrite Hp. split_and!.
  - done.
  - done.
  - by rewrite lookup_alter_eq, Hl.
  - by rewrite lookup_insert_eq.
Qed.

(** ** Searching *)

Lemma post_search_get_search : post_search = get_search.
Proof. reflexivity. Qed.

Lemma get_search_missing id flag w :
  inventoryDB w !! prop_key id = None → get_search id flag w = (not_found, w).
Proof. intros H. unfold get_search. msimpl. by rewrite H. Qed.

Lemma get_search_found id flag l w :
  inventoryDB w !! prop_key id = Some l →
  get_search id flag w =
    (Response 200 (BItem (search_view flag (obj_at w l))),
     World (<[fresh (dom (heap w)) := search_view flag (obj_at w l)]> (heap w))
           (inventoryDB w) (disk w)
           (trace w ++ search_events flag (fresh (dom (heap w))) (obj_at w l))).
Proof.
  intros H. unfold get_search, search_view, search_events, with_photo_link.
  rewrite bind_run, db_get_run. cbn [fst snd]. rewrite H.
  msimpl. rewrite !obj_at_insert_eq.
  destruct (bool_decide (flag = Some "on")
            && truthy (client_view (obj_at w l) !! "photoUrl")); msimpl.
  - by rewrite !obj_at_insert_eq, alter_insert_eq, !obj_at_insert_eq,
       <- app_assoc.
  - by rewrite !obj_at_insert_eq, app_nil_r.
Qed.

(** C10. A search, by GET or by POST, with or without the flag, leaves
    every object that existed before the request as it was (the link is
    appended to a fresh object), and leaves the registry and the files
    unchanged. *)
Theorem search_leaves_store_unchanged w id flag l o :
  heap w !! l = Some o →
  (heap (get_search id flag w).2 !! l = Some o ∧
   inventoryDB (get_search id flag w).2 = inventoryDB w ∧
   disk (get_search id flag w).2 = disk w) ∧
  (heap (post_search id flag w).2 !! l = Some o ∧
   inventoryDB (post_search id flag w).2 = inventoryDB w ∧
   disk (post_search id flag w).2 = disk w).
Proof.
  intros Hl. rewrite post_search_get_search.
  assert (heap (get_search id flag w).2 !! l = Some o ∧
          inventoryDB (get_search id flag w).2 = inventoryDB w ∧
          disk (get_search id flag w).2 = disk w) as H; [|done].
  destruct (inventoryDB w !! prop_key id) as [l0|] eqn:Hid.
  - rewrite (get_search_found id flag l0) by done.
    cbn [snd heap inventoryDB disk]. split_and!; [|done..].
    rewrite lookup_insert_ne; [done|]. apply fresh_loc_ne. eauto.
  - rewrite get_search_missing by done. done.
Qed.

(** ** The presentation mapping on item records *)

Lemma client_view_item r :
  item_photoPath r ≠ Some "" → client_view (item_obj r) = item_view r.
Proof. destruct r as [i n d [[|a s]|]]; done. Qed.

Lemma item_view_id r : item_view r !! "id" = Some (JStr (item_id r)).
Proof. by destruct r as [i n d [p|]]. Qed.
Lemma item_view_name r : item_view r !! "name" = Some (JStr (item_name r)).
Proof. by destruct r as [i n d [p|]]. Qed.
Lemma item_view_description r :
  item_view r !! "description" = Some (JStr (item_description r)).
Proof. by destruct r as [i n d [p|]]. Qed.
Lemma item_view_photoPath r : item_view r !! "photoPath" = None.
Proof. by destruct r as [i n d [p|]]. Qed.
Lemma item_view_photoUrl r :
  item_view r !! "photoUrl" =
    match item_photoPath r with
    | Some _ => Some (JStr ("/inventory/" +:+ item_id r +:+ "/photo"))
    | None => None
    end.
Proof. by destruct r as [i n d [p|]]. Qed.

Lemma truthy_photo_url s :
  truthy (Some (JStr ("/inventory/" +:+ s +:+ "/photo"))) = true.
Proof. reflexivity. Qed.

Lemma client_view_no_path o : client_view o !! "photoPath" = None.
Proof. unfold client_view. apply lookup_delete_eq. Qed.

Lemma append_assoc (a b c : string) : (a +:+ b) +:+ c = a +:+ b +:+ c.
Proof.
  induction a as [|x a IH]; [done|].
  change (String x ((a +:+ b) +:+ c) = String x (a +:+ b +:+ c)).
  by f_equal.
Qed.

Lemma or_empty_str s : or_empty (Some (JStr s)) = s.
Proof. by destruct s. Qed.

(** C8. For every item record, [itemToClient] builds a fresh object that
    copies [id], [name] and [description], carries [photoUrl], equal to
    [/inventory/{id}/photo], exactly when the record has a photo path, and
    has no [photoPath] property; the record itself is left as it was. *)
Theorem itemToClient_presentation w l r :
  heap w !! l = Some (item_obj r) →
  item_photoPath r ≠ Some "" →
  heap w !! (itemToClient l w).1 = None ∧
  heap (itemToClient l w).2 !! l = Some (item_obj r) ∧
  obj_at (itemToClient l w).2 (itemToClient l w).1 !! "id"
    = Some (JStr (item_id r)) ∧
  obj_at (itemToClient l w).2 (itemToClient l w).1 !! "name"
    = Some (JStr (item_name r)) ∧
  obj_at (itemToClient l w).2 (itemToClient l w).1 !! "description"
    = Some (JStr (item_description r)) ∧
  obj_at (itemToClient l w).2 (itemToClient l w).1 !! "photoUrl"
    = (match item_photoPath r with
       | Some _ => Some (JStr ("/inventory/" +:+ item_id r +:+ "/photo"))
       | None => None
       end) ∧
  (is_Some (obj_at (itemToClient l w).2 (itemToClient l w).1 !! "photoUrl")
   ↔ is_Some (item_photoPath r)) ∧
  obj_at (itemToClient l w).2 (itemToClient l w).1 !! "photoPath" = None.
Proof.
  intros Hl Hp. rewrite itemToClient_run. cbn [fst snd].
  rewrite obj_at_insert_eq, (obj_at_Some _ _ _ Hl), client_view_item by done.
  cbn [heap]. split_and!.
  - apply fresh_loc_unused.
  - rewrite lookup_insert_ne; [done|]. apply fresh_loc_ne. eauto.
  - apply item_view_id.
  - apply item_view_name.
  - apply item_view_description.
  - apply item_view_photoUrl.
  - rewrite item_view_photoUrl. destruct (item_photoPath r).
    + split; eauto.
    + split; intros [? ?]; done.
  - apply item_view_photoPath.
Qed.

(** C6. Searching for an item, by GET with [includePhoto] or by POST with
    [has_photo], answers 200 with the item's view.  When the flag is the
    string [on] and the item has a photo, the description of the view is
    the stored description followed by the link
    [ [Photo Link: /inventory/{id}/photo]]; when the flag is absent or
    anything else, or the item has no photo, it is the stored description. *)
Theorem search_photo_link w id flag l r :
  inventoryDB w !! prop_key id = Some l →
  heap w !! l = Some (item_obj r) →
  item_photoPath r ≠ Some "" →
  ∃ v,
    (get_search id flag w).1 = Response 200 (BItem v) ∧
    (post_search id flag w).1 = Response 200 (BItem v) ∧
    (flag = Some "on" → is_Some (item_photoPath r) →
     v !! "description"
     = Some (JStr (item_description r +:+
                   " [Photo Link: /inventory/" +:+ item_id r +:+ "/photo]"))) ∧
    (flag ≠ Some "on" ∨ item_photoPath r = None →
     v !! "description" = Some (JStr (item_description r))).
Proof.
  intros Hid Hl Hp. exists (search_view flag (item_obj r)).
  rewrite post_search_get_search, (get_search_found id flag l) by done.
  cbn [fst]. rewrite (obj_at_Some _ _ _ Hl).
  split_and!; [done..| |].
  - intros -> [p Hsome]. unfold search_view, with_photo_link.
    rewrite client_view_item by done.
    rewrite item_view_photoUrl, item_view_description, Hsome.
    rewrite bool_decide_eq_true_2, truthy_photo_url by done.
    cbn [andb js_to_string]. rewrite lookup_insert_eq, or_empty_str.
    do 3 f_equal. by rewrite !append_assoc.
  - intros Hcase. unfold search_view.
    rewrite client_view_item by done.
    destruct Hcase as [Hflag | Hnone].
    + rewrite bool_decide_eq_false_2 by done. apply item_view_description.
    + rewrite item_view_photoUrl, Hnone, andb_false_r.
      apply item_view_description.
Qed.

(** ** Registration *)

Lemma register_parse_error e p w :
  p_err p = true →
  register e p w = (Response 500 (BError "Error parsing form data"), w).
Proof. intros H. unfold register. by rewrite H. Qed.

Lemma register_rejected e p w :
  p_err p = false →
  truthy (first_field (p_inventory_name p)) = false →
  register e p w =
    (Response 400 (BError "inventory_name is required"),
     match first_file (p_photo p) with
     | Some f =>
         World (heap w) (inventoryDB w)
               (if unlink_succeeds e w (filepath f)
                then delete (filepath f) (disk w) else disk w)
               (trace w ++ EUnlink (filepath f)
                             (unlink_succeeds e w (filepath f))
                  :: (if unlink_succeeds e w (filepath f)
                      then [] else [ELogError]))
     | None => w
     end).
Proof.
  intros He Hn. unfold register. rewrite He.
  destruct (first_field (p_inventory_name p)) as [name|] eqn:Hname;
    [rewrite Hn; cbn [negb]|];
    destruct (first_file (p_photo p)) as [f|]; by msimpl.
Qed.

Lemma register_accepted e p w :
  p_err p = false →
  truthy (first_field (p_inventory_name p)) = true →
  register e p w =
    json_item 201 (fresh (dom (heap w)))
      (World (<[fresh (dom (heap w)) := item_obj (new_item e p)]> (heap w))
             (<[randomUUID e := fresh (dom (heap w))]> (inventoryDB w))
             (disk w)
             (trace w ++ [EDbSet (randomUUID e) (fresh (dom (heap w)))])).
Proof.
  intros He Hn. unfold register, new_item. rewrite He.
  destruct (first_field (p_inventory_name p)) as [[|s]|] eqn:Hname;
    try done.
  rewrite Hn. cbn [negb]. rewrite bind_run, alloc_run. cbn [fst snd].
  rewrite bind_run, db_set_run. cbn [fst snd heap inventoryDB disk trace].
  by destruct (first_file (p_photo p)).
Qed.

(** *** The multipart parser around the callback *)

Lemma world_eta w : World (heap w) (inventoryDB w) (disk w) (trace w) = w.
Proof. by destruct w. Qed.

Lemma form_store_run p w :
  form_store p w =
    (tt, World (heap w) (inventoryDB w)
               (stored (uploads (p_photo p)) (disk w)) (trace w)).
Proof.
  unfold form_store, stored. rewrite bind_run, ret_run. f_equal.
  generalize (uploads (p_photo p)). intros fs. revert w.
  induction fs as [|f fs IH]; intros w; [by rewrite world_eta|].
  rewrite mapM_cons. cbn [snd]. rewrite IH. reflexivity.
Qed.

Lemma unlink_disk e p (d : gmap string (list byte)) :
  (if bool_decide (is_Some (d !! p)) && unlink_ok e then delete p d else d)
  = (if unlink_ok e then delete p d else d).
Proof.
  destruct (unlink_ok e); [|by rewrite andb_false_r]. rewrite andb_true_r.
  case_bool_decide as Hp; [done|]. symmetry. apply delete_id.
  destruct (d !! p); [|done]. exfalso. apply Hp. eauto.
Qed.

Lemma form_destroy_run e p w :
  form_destroy e p w =
    (tt, World (heap w) (inventoryDB w)
               (if unlink_ok e then unlinked (uploads (p_photo p)) (disk w)
                else disk w)
               (trace w ++ destroy_events e (disk w) (uploads (p_photo p)))).
Proof.
  unfold form_destroy, unlinked. rewrite bind_run, ret_run. f_equal.
  generalize (uploads (p_photo p)). intros fs. revert w.
  induction fs as [|f fs IH]; intros w.
  - cbn. rewrite app_nil_r. destruct (unlink_ok e); by rewrite world_eta.
  - rewrite mapM_cons, fs_unlink_run. cbn [snd]. rewrite IH.
    cbn [heap inventoryDB disk trace destroy_events foldl].
    unfold unlink_succeeds. rewrite unlink_disk, <- app_assoc.
    by destruct (unlink_ok e).
Qed.

Lemma handle_register_run e p w :
  handle e (PostRegister p) w =
    if p_err p
    then (Response 500 (BError "Error parsing form data"),
          (form_destroy e p (form_store p w).2).2)
    else register e p (form_store p w).2.
Proof.
  cbn [handle]. unfold form_parse. rewrite !bind_run.
  destruct (p_err p) eqn:He.
  - by rewrite register_parse_error.
  - rewrite !ret_run. cbn [fst snd]. by destruct (register e p _).
Qed.

Lemma first_file_uploads x f : first_file x = Some f → f ∈ uploads x.
Proof.
  destruct x as [[g|[|g l]]|]; cbn; intros [= <-]; apply list_elem_of_here.
Qed.

Lemma stored_lookup_ne fs (d : gmap string (list byte)) q :
  (∀ f, f ∈ fs → filepath f ≠ q) → stored fs d !! q = d !! q.
Proof.
  unfold stored. revert d. induction fs as [|f fs IH]; intros d Hq; [done|].
  cbn [foldl]. rewrite IH.
  - apply lookup_insert_ne, Hq, list_elem_of_here.
  - intros g Hg. by apply Hq, list_elem_of_further.
Qed.

Lemma stored_keeps fs (d : gmap string (list byte)) q :
  is_Some (d !! q) → is_Some (stored fs d !! q).
Proof.
  unfold stored. revert d. induction fs as [|f fs IH]; intros d Hq; [done|].
  cbn [foldl]. apply IH. rewrite lookup_insert. case_decide; eauto.
Qed.

Lemma stored_elem fs (d : gmap string (list byte)) f :
  f ∈ fs → is_Some (stored fs d !! filepath f).
Proof.
  unfold stored. revert d. induction fs as [|g fs IH]; intros d Hf.
  - by apply elem_of_nil in Hf.
  - cbn [foldl]. apply elem_of_cons in Hf as [->|Hf]; [|by apply IH].
    apply (stored_keeps fs). rewrite lookup_insert_eq. eauto.
Qed.

Lemma unlinked_lookup_ne fs (d : gmap string (list byte)) q :
  (∀ f, f ∈ fs → filepath f ≠ q) → unlinked fs d !! q = d !! q.
Proof.
  unfold unlinked. revert d. induction fs as [|f fs IH]; intros d Hq; [done|].
  cbn [foldl]. rewrite IH.
  - apply lookup_delete_ne, Hq, list_elem_of_here.
  - intros g Hg. by apply Hq, list_elem_of_further.
Qed.

Lemma unlinked_gone fs (d : gmap string (list byte)) q :
  d !! q = None → unlinked fs d !! q = None.
Proof.
  unfold unlinked. revert d. induction fs as [|f fs IH]; intros d Hq; [done|].
  cbn [foldl]. apply IH. rewrite lookup_delete. case_decide; done.
Qed.

Lemma unlinked_elem fs (d : gmap string (list byte)) f :
  f ∈ fs → unlinked fs d !! filepath f = None.
Proof.
  revert d. induction fs as [|g fs IH]; intros d Hf.
  - by apply elem_of_nil in Hf.
  - apply elem_of_cons in Hf as [->|Hf]; [|by apply IH].
    apply (unlinked_gone fs), lookup_delete_eq.
Qed.

Lemma first_file_head x : first_file x = head (uploads x).
Proof. by destruct x as [[g|l]|]. Qed.

Lemma stored_first f fs (d : gmap string (list byte)) :
  NoDup (filepath <$> f :: fs) →
  stored (f :: fs) d !! filepath f = Some (content f).
Proof.
  intros [Hf _]%NoDup_cons. unfold stored. cbn [foldl].
  fold (stored fs (<[filepath f := content f]> d)).
  rewrite stored_lookup_ne; [apply lookup_insert_eq|].
  intros g Hg Heq. apply Hf. rewrite <- Heq.
  apply list_elem_of_fmap. by exists g.
Qed.

Lemma new_events_app w w' t : trace w' = trace w ++ t → new_events w w' = t.
Proof. intros H. unfold new_events. rewrite H. apply drop_app_length. Qed.

Lemma stored_exists e fs (d : gmap string (list byte)) f :
  f ∈ fs →
  bool_decide (is_Some (stored fs d !! filepath f)) && unlink_ok e
  = unlink_ok e.
Proof.
  intros Hf. by rewrite bool_decide_eq_true_2 by by apply stored_elem.
Qed.

(** C3, as the code has it.  A registration is rejected with 500 when the
    form could not be parsed, and with 400 when the name is missing or
    empty.  The file of the photo the handler takes from the form (the
    first of the field) is then unlinked: by the parser, which destroys
    every file it had stored, in the first case; by the handler, which logs
    a failure and unlinks no other file, in the second.  A failure of the
    unlink is not fatal: the file is gone whenever the unlink succeeds.
    The files that were not uploaded, the objects and the registry are as
    before. *)
Theorem register_rejected_unlinks_upload e w p f :
  p_err p = true ∨ truthy (first_field (p_inventory_name p)) = false →
  first_file (p_photo p) = Some f →
  status (handle e (PostRegister p) w).1 = (if p_err p then 500 else 400) ∧
  EUnlink (filepath f) (unlink_ok e)
    ∈ new_events w (handle e (PostRegister p) w).2 ∧
  (unlink_ok e = true →
   disk (handle e (PostRegister p) w).2 !! filepath f = None) ∧
  (p_err p = true → unlink_ok e = true →
   ∀ g, g ∈ uploads (p_photo p) →
        disk (handle e (PostRegister p) w).2 !! filepath g = None) ∧
  (p_err p = false → unlink_ok e = false →
   ELogError ∈ new_events w (handle e (PostRegister p) w).2) ∧
  (p_err p = false →
   disk (handle e (PostRegister p) w).2
   = if unlink_ok e
     then delete (filepath f) (stored (uploads (p_photo p)) (disk w))
     else stored (uploads (p_photo p)) (disk w)) ∧
  (∀ q, (∀ g, g ∈ uploads (p_photo p) → filepath g ≠ q) →
        disk (handle e (PostRegister p) w).2 !! q = disk w !! q) ∧
  heap (handle e (PostRegister p) w).2 = heap w ∧
  inventoryDB (handle e (PostRegister p) w).2 = inventoryDB w.
Proof.
  intros Hrej Hf. pose proof (first_file_uploads _ _ Hf) as Hin.
  rewrite handle_register_run, form_store_run. cbn [snd].
  destruct (p_err p) eqn:He.
  - rewrite form_destroy_run. cbn [fst snd status heap inventoryDB disk].
    erewrite new_events_app by (cbn [trace]; reflexivity).
    split_and!; try done.
    + rewrite first_file_head in Hf.
      destruct (uploads (p_photo p)) as [|g fs] eqn:Hup; [done|].
      injection Hf as ->. cbn [destroy_events].
      rewrite stored_exists by apply list_elem_of_here.
      apply list_elem_of_here.
    + intros ->. by apply unlinked_elem.
    + intros _ -> g Hg. by apply unlinked_elem.
    + intros q Hq. destruct (unlink_ok e).
      * by rewrite unlinked_lookup_ne, stored_lookup_ne.
      * by rewrite stored_lookup_ne.
  - destruct Hrej as [?|Hn]; [done|].
    rewrite register_rejected, Hf by done.
    cbn [fst snd status heap inventoryDB disk].
    erewrite new_events_app by (cbn [trace]; reflexivity).
    unfold unlink_succeeds. cbn [disk]. rewrite stored_exists by done.
    split_and!; try done.
    + apply list_elem_of_here.
    + intros ->. apply lookup_delete_eq.
    + intros _ ->. apply list_elem_of_further, list_elem_of_here.
    + intros q Hq. destruct (unlink_ok e).
      * rewrite lookup_delete_ne by (by apply Hq).
        by rewrite stored_lookup_ne.
      * by rewrite stored_lookup_ne.
Qed.

(** ** Objects are only ever added *)

Lemma extends_refl w : extends w w.
Proof. by repeat split. Qed.

Lemma extends_trans w1 w2 w3 : extends w1 w2 → extends w2 w3 → extends w1 w3.
Proof.
  intros (Hd1 & Hf1 & Hh1) (Hd2 & Hf2 & Hh2). repeat split; try congruence.
  eauto.
Qed.

Lemma extends_obj_at w w' l :
  extends w w' → is_Some (heap w !! l) → obj_at w' l = obj_at w l.
Proof.
  intros (_ & _ & Hh) [o Ho]. unfold obj_at. by rewrite (Hh _ _ Ho), Ho.
Qed.

Lemma extends_alloc w o t :
  extends w (World (<[fresh (dom (heap w)) := o]> (heap w))
                   (inventoryDB w) (disk w) t).
Proof.
  repeat split. intros l o' Hl. cbn [heap].
  rewrite lookup_insert_ne; [done|]. apply fresh_loc_ne. eauto.
Qed.

Lemma itemToClient_extends l w : extends w (itemToClient l w).2.
Proof. rewrite itemToClient_run. apply extends_alloc. Qed.

Lemma json_item_extends code l w : extends w (json_item code l w).2.
Proof. rewrite json_item_run. apply extends_alloc. Qed.

Lemma get_item_extends id w : extends w (get_item id w).2.
Proof.
  unfold get_item. rewrite bind_run, db_get_run. cbn [fst snd].
  destruct (inventoryDB w !! id); [apply json_item_extends|apply extends_refl].
Qed.

Lemma get_search_extends id flag w : extends w (get_search id flag w).2.
Proof.
  destruct (inventoryDB w !! prop_key id) as [l|] eqn:Hid.
  - rewrite (get_search_found id flag l) by done. apply extends_alloc.
  - rewrite get_search_missing by done. apply extends_refl.
Qed.

Lemma get_photo_world e id w : (get_photo e id w).2 = w.
Proof.
  unfold get_photo. rewrite bind_run, db_get_run. cbn [fst snd].
  destruct (inventoryDB w !! id); [|done].
  rewrite bind_run, getf_run. cbn [fst snd].
  destruct (truthy _); [|done]. cbn [negb].
  rewrite bind_run, sendFile_run. cbn [fst snd].
  by destruct (if sendFile_refuses e _ then _ else _).
Qed.

Lemma mapM_snapshot cs w : mapM snapshot cs w = (obj_at w <$> cs, w).
Proof.
  induction cs as [|c cs IH]; [done|].
  rewrite mapM_cons, snapshot_run. cbn [fst snd]. by rewrite IH.
Qed.

Lemma mapM_itemToClient ls : ∀ w,
  Forall (λ l, is_Some (heap w !! l)) ls →
  extends w (mapM itemToClient ls w).2 ∧
  obj_at (mapM itemToClient ls w).2 <$> (mapM itemToClient ls w).1
    = (λ l, client_view (obj_at w l)) <$> ls.
Proof.
  induction ls as [|x ls IH]; intros w Hls.
  - split; [apply extends_refl|done].
  - apply Forall_cons in Hls as [Hx Hls].
    rewrite mapM_cons. cbn [fst snd].
    pose proof (itemToClient_extends x w) as Hext.
    destruct (IH (itemToClient x w).2) as [Hext' Hviews].
    { eapply Forall_impl; [exact Hls|]. intros l [o Ho].
      destruct Hext as (_ & _ & Hh). eauto. }
    split; [by eapply extends_trans|].
    rewrite !fmap_cons. f_equal.
    + rewrite (extends_obj_at _ _ _ Hext').
      * rewrite itemToClient_run. cbn [fst snd]. apply obj_at_insert_eq.
      * rewrite itemToClient_run. cbn [fst snd heap].
        rewrite lookup_insert_eq. eauto.
    + rewrite Hviews. apply Forall_fmap_ext_1.
      eapply Forall_impl; [exact Hls|]. intros l Hl. cbn beta.
      by rewrite (extends_obj_at _ _ _ Hext).
Qed.

Lemma get_inventory_run w :
  Forall (λ l, is_Some (heap w !! l)) (map_to_list (inventoryDB w)).*2 →
  (get_inventory w).1
    = Response 200 (BItems ((λ l, client_view (obj_at w l))
                            <$> (map_to_list (inventoryDB w)).*2)) ∧
  extends w (get_inventory w).2.
Proof.
  intros Hls. unfold get_inventory.
  rewrite bind_run, db_values_run. cbn [fst snd].
  rewrite bind_run, bind_run, mapM_snapshot, ret_run. cbn [fst snd].
  destruct (mapM_itemToClient _ w Hls) as [Hext Hviews].
  by rewrite Hviews.
Qed.

(** ** The registry stays well formed *)

Section registry_invariant.
Variable P : string → Prop.
Hypothesis new_path_ok : ∀ e id, P (new_photo_path e id).

Lemma db_ok_empty : db_ok P empty_world.
Proof. intros id l. unfold empty_world. cbn [inventoryDB]. by rewrite lookup_empty. Qed.

Lemma db_ok_extends w w' : extends w w' → db_ok P w → db_ok P w'.
Proof.
  intros (Hd & _ & Hh) Hok id l Hid. rewrite Hd in Hid.
  destruct (Hok id l Hid) as (r & Hl & Hr). exists r. split; [|done].
  by apply Hh.
Qed.

Lemma db_ok_same w w' :
  heap w' = heap w → inventoryDB w' = inventoryDB w →
  db_ok P w → db_ok P w'.
Proof. intros Hh Hd Hok id l. rewrite Hh, Hd. apply Hok. Qed.

Lemma db_ok_live w :
  db_ok P w →
  Forall (λ l, is_Some (heap w !! l)) (map_to_list (inventoryDB w)).*2.
Proof.
  intros Hok. apply Forall_forall. intros l Hl.
  apply list_elem_of_fmap in Hl as ([id l'] & -> & Hin).
  apply elem_of_map_to_list in Hin.
  destruct (Hok id l' Hin) as (r & Hr & _). eauto.
Qed.

Lemma register_db_ok e p w :
  request_paths P (PostRegister p) → db_ok P w → db_ok P (register e p w).2.
Proof.
  intros Hp Hok. destruct (p_err p) eqn:He.
  { by rewrite register_parse_error. }
  destruct (truthy (first_field (p_inventory_name p))) eqn:Hn.
  - rewrite register_accepted by done.
    eapply db_ok_extends; [apply json_item_extends|].
    intros id l. cbn [heap inventoryDB].
    destruct (decide (id = randomUUID e)) as [->|Hne].
    + rewrite lookup_insert_eq. intros [= <-].
      exists (new_item e p). rewrite lookup_insert_eq.
      split_and!; [done..| |].
      * unfold new_item. cbn [item_name].
        by destruct (first_field (p_inventory_name p)) as [[|[|a s]]|].
      * unfold new_item. cbn [item_photoPath]. intros q Hq.
        destruct (first_file (p_photo p)) as [f|] eqn:Hf; [|done].
        injection Hq as <-. by apply Hp.
    + rewrite lookup_insert_ne by done. intros Hid.
      destruct (Hok id l Hid) as (r & Hl & Hr). exists r. split; [|done].
      rewrite lookup_insert_ne; [done|]. apply fresh_loc_ne. eauto.
  - rewrite register_rejected by done.
    destruct (first_file (p_photo p)); [|done].
    by eapply db_ok_same.
Qed.

Lemma updated_nonempty old v : old ≠ "" → updated old v ≠ "".
Proof. by destruct v as [[|[|a s]]|]. Qed.

Lemma put_item_db_ok id b w : db_ok P w → db_ok P (put_item id b w).2.
Proof.
  intros Hok. destruct (inventoryDB w !! id) as [l|] eqn:Hid.
  - rewrite (put_item_found id b l) by done.
    eapply db_ok_extends; [apply json_item_extends|].
    intros id' l' Hid'. cbn [heap inventoryDB] in *.
    destruct (Hok id' l' Hid') as (r & Hl & Hi & Hn & Hp).
    destruct (decide (l' = l)) as [->|Hne].
    + eexists. rewrite lookup_alter_eq, Hl. cbn [fmap option_fmap option_map].
      unfold compose. rewrite assign_name, assign_description.
      split_and!; [done..| |done].
      cbn [item_name]. by apply updated_nonempty.
    + exists r. by rewrite lookup_alter_ne.
  - by rewrite put_item_missing.
Qed.

Lemma delete_item_db_ok e id w : db_ok P w → db_ok P (delete_item e id w).2.
Proof.
  intros Hok. destruct (inventoryDB w !! id) as [l|] eqn:Hid.
  - rewrite (delete_item_found e id l) by done.
    intros id' l'. cbn [snd heap inventoryDB].
    intros Hid'%lookup_delete_Some. destruct Hid' as [_ Hid'].
    by apply Hok.
  - by rewrite delete_item_missing.
Qed.

Lemma put_photo_db_ok e id chunks w :
  db_ok P w → db_ok P (put_photo e id chunks w).2.
Proof.
  intros Hok. destruct (inventoryDB w !! id) as [l|] eqn:Hid;
    [|by rewrite put_photo_missing].
  destruct (concat chunks) as [|x xs] eqn:Hc;
    [by rewrite (put_photo_empty e id l)|].
  rewrite (put_photo_found e id l) by (done || by rewrite Hc).
  destruct (write_ok e); [|by eapply db_ok_same].
  intros id' l' Hid'. cbn [snd heap inventoryDB] in *.
  destruct (Hok id' l' Hid') as (r & Hl & Hi & Hn & Hp).
  destruct (decide (l' = l)) as [->|Hne].
  - eexists. rewrite lookup_alter_eq, Hl. cbn [fmap option_fmap option_map].
    rewrite item_obj_set_photoPath. split_and!; [done..|].
    cbn [item_photoPath]. intros q [= <-]. apply new_path_ok.
  - exists r. by rewrite lookup_alter_ne.
Qed.

Lemma get_inventory_db_ok w : db_ok P w → db_ok P (get_inventory w).2.
Proof.
  intros Hok. eapply db_ok_extends; [|done].
  by apply get_inventory_run, db_ok_live.
Qed.

Lemma form_store_db_ok p w : db_ok P w → db_ok P (form_store p w).2.
Proof. intros Hok. rewrite form_store_run. by eapply db_ok_same. Qed.

Lemma handle_db_ok e r w :
  request_paths P r → db_ok P w → db_ok P (handle e r w).2.
Proof.
  intros Hr Hok. destruct r; [|cbn [handle]..].
  - rewrite handle_register_run. destruct (p_err p).
    + cbn [snd]. rewrite form_destroy_run.
      eapply db_ok_same; [..|by apply form_store_db_ok]; done.
    + by apply register_db_ok, form_store_db_ok.
  - by apply get_inventory_db_ok.
  - eapply db_ok_extends; [apply get_item_extends|done].
  - by apply put_item_db_ok.
  - by apply delete_item_db_ok.
  - by rewrite get_photo_world.
  - by apply put_photo_db_ok.
  - eapply db_ok_extends; [apply get_search_extends|done].
  - rewrite post_search_get_search.
    eapply db_ok_extends; [apply get_search_extends|done].
  - done.
Qed.

Lemma run_cons e r rs w :
  run ((e, r) :: rs) w =
    ((handle e r w).1 :: (run rs (handle e r w).2).1,
     (run rs (handle e r w).2).2).
Proof. reflexivity. Qed.

Lemma run_db_ok rs : ∀ w,
  Forall (λ x, request_paths P x.2) rs → db_ok P w → db_ok P (run rs w).2.
Proof.
  induction rs as [|[e r] rs IH]; intros w Hrs Hok; [done|].
  apply Forall_cons in Hrs as [Hr Hrs]. rewrite run_cons. cbn [snd].
  by apply IH, handle_db_ok.
Qed.
End registry_invariant.

(** ** What the listing shows *)

Lemma view_id_client_view o : view_id (client_view o) = view_id o.
Proof.
  unfold view_id, client_view. rewrite lookup_delete_ne by done.
  destruct (truthy _); [|done]. by rewrite lookup_insert_ne.
Qed.

Lemma view_id_item r : view_id (item_obj r) = Some (item_id r).
Proof. reflexivity. Qed.

Lemma listed_keys w :
  db_ok (λ _, True) w → listed w = (map_to_list (inventoryDB w)).*1.
Proof.
  intros Hok. unfold listed.
  destruct (get_inventory_run w) as [-> _]; [by eapply db_ok_live|].
  cbn [body].
  assert (Hall : Forall (λ x : string * loc,
                   view_id (client_view (obj_at w x.2)) = Some x.1)
                 (map_to_list (inventoryDB w))).
  { apply Forall_forall. intros [id l] Hin%elem_of_map_to_list.
    destruct (Hok id l Hin) as (r & Hl & Hi & _). cbn [fst snd].
    by rewrite view_id_client_view, (obj_at_Some _ _ _ Hl), view_id_item, Hi. }
  induction Hall as [|[id l] xs Hx _ IH]; [done|].
  cbn [fmap list_fmap omap list_omap fst snd] in *. by rewrite Hx, IH.
Qed.

Lemma listed_live w id :
  db_ok (λ _, True) w → id ∈ listed w ↔ is_Some (inventoryDB w !! id).
Proof.
  intros Hok. rewrite listed_keys by done.
  rewrite list_elem_of_fmap. split.
  - intros ([id' l] & -> & Hin%elem_of_map_to_list). eauto.
  - intros [l Hl]. exists (id, l). split; [done|].
    by apply elem_of_map_to_list.
Qed.

(** ** Which ids a run makes live *)

Lemma register_returns e p w :
  p_err p = false →
  truthy (first_field (p_inventory_name p)) = true →
  returned_id (register e p w).1 = [randomUUID e].
Proof.
  intros He Hn. rewrite register_accepted, json_item_run by done.
  cbn [fst]. rewrite obj_at_insert_eq. unfold returned_id. cbn [body status].
  by rewrite view_id_client_view.
Qed.

Lemma handle_keys e r w id :
  is_Some (inventoryDB (handle e r w).2 !! id) →
  is_Some (inventoryDB w !! id) ∨
  ∃ p, r = PostRegister p ∧ id ∈ returned_id (handle e r w).1.
Proof.
  destruct r as [p| |i|i b|i|i|i chunks|i flag|i flag|]; [|cbn [handle]..].
  - rewrite handle_register_run.
    assert (Hdb : inventoryDB (form_store p w).2 = inventoryDB w)
      by (by rewrite form_store_run).
    set (w0 := (form_store p w).2) in *.
    destruct (p_err p) eqn:He.
    { cbn [snd]. rewrite form_destroy_run. cbn [inventoryDB].
      rewrite Hdb. eauto. }
    destruct (truthy (first_field (p_inventory_name p))) eqn:Hn.
    + rewrite register_returns by done.
      rewrite register_accepted, json_item_run by done.
      cbn [snd inventoryDB]. rewrite lookup_insert.
      case_decide as Hid; [subst id|rewrite Hdb]; [|by left].
      intros _. right. exists p. split; [done|]. apply list_elem_of_singleton.
      done.
    + rewrite register_rejected by done. cbn [snd].
      destruct (first_file (p_photo p)); cbn [inventoryDB]; rewrite Hdb; eauto.
  - destruct (decide (Forall (λ l, is_Some (heap w !! l))
                        (map_to_list (inventoryDB w)).*2)) as [Hl|Hl].
    + destruct (get_inventory_run w Hl) as (_ & -> & _). eauto.
    + unfold get_inventory.
      rewrite bind_run, db_values_run. cbn [fst snd].
      rewrite bind_run, bind_run, mapM_snapshot, ret_run. cbn [fst snd].
      clear Hl. generalize ((map_to_list (inventoryDB w)).*2). intros ls.
      revert w. induction ls as [|x ls IH]; intros w; [eauto|].
      rewrite mapM_cons. cbn [snd]. intros H%IH.
      destruct (itemToClient_extends x w) as (<- & _). done.
  - destruct (get_item_extends i w) as (-> & _). eauto.
  - destruct (inventoryDB w !! i) as [l|] eqn:Hi.
    + rewrite (put_item_found i b l), json_item_run by done. eauto.
    + rewrite put_item_missing by done. eauto.
  - destruct (inventoryDB w !! i) as [l|] eqn:Hi.
    + rewrite (delete_item_found e i l) by done. cbn [snd inventoryDB].
      intros [l' [_ Hl']%lookup_delete_Some]. eauto.
    + rewrite delete_item_missing by done. eauto.
  - rewrite get_photo_world. eauto.
  - destruct (inventoryDB w !! i) as [l|] eqn:Hi;
      [|rewrite put_photo_missing by done; eauto].
    destruct (concat chunks) as [|x xs] eqn:Hc;
      [rewrite (put_photo_empty e i l) by done; eauto|].
    rewrite (put_photo_found e i l) by (done || by rewrite Hc). eauto.
  - destruct (get_search_extends i flag w) as (-> & _). eauto.
  - rewrite post_search_get_search.
    destruct (get_search_extends i flag w) as (-> & _). eauto.
  - eauto.
Qed.

Lemma run_app rs1 rs2 w :
  (run (rs1 ++ rs2) w).2 = (run rs2 (run rs1 w).2).2.
Proof.
  revert w. induction rs1 as [|[e r] rs1 IH]; intros w; [done|].
  rewrite <- app_comm_cons, !run_cons. cbn [snd]. apply IH.
Qed.

Lemma created_ids_app rs1 rs2 w :
  created_ids (rs1 ++ rs2) w
  = created_ids rs1 w ++ created_ids rs2 (run rs1 w).2.
Proof.
  revert w. induction rs1 as [|[e r] rs1 IH]; intros w; [done|].
  rewrite <- app_comm_cons. cbn [created_ids]. rewrite run_cons. cbn [snd].
  by rewrite IH, app_assoc.
Qed.

Lemma run_keys rs : ∀ w id,
  is_Some (inventoryDB (run rs w).2 !! id) →
  is_Some (inventoryDB w !! id) ∨ id ∈ created_ids rs w.
Proof.
  induction rs as [|[e r] rs IH]; intros w id; [by left|].
  rewrite run_cons. cbn [snd created_ids]. intros [Hid|Hid]%IH.
  - apply handle_keys in Hid as [Hid|(p & -> & Hid)]; [by left|].
    right. apply elem_of_app. by left.
  - right. apply elem_of_app. by right.
Qed.

Lemma run_db_ok_any rs w :
  db_ok (λ _, True) w → db_ok (λ _, True) (run rs w).2.
Proof.
  apply run_db_ok; [done|]. apply Forall_forall. intros [e r] _.
  by destruct r.
Qed.

Lemma delete_item_success e id w :
  status (delete_item e id w).1 = 200 →
  is_Some (inventoryDB w !! id) ∧
  inventoryDB (delete_item e id w).2 !! id = None.
Proof.
  destruct (inventoryDB w !! id) as [l|] eqn:Hid.
  - rewrite (delete_item_found e id l) by done. cbn [snd inventoryDB].
    rewrite lookup_delete_eq. eauto.
  - rewrite delete_item_missing by done. done.
Qed.

(** ** The listing along a run *)

(** C7. Along every run of requests from the empty inventory, every id
    that [GET /inventory] lists was returned by an earlier registration;
    and, the generated ids being pairwise distinct, an id is not listed
    any more once its deletion has succeeded. *)
Theorem listed_ids_created_not_deleted rs :
  (∀ id, id ∈ listed (run rs empty_world).2 →
         id ∈ created_ids rs empty_world) ∧
  (NoDup (created_ids rs empty_world) →
   ∀ pre e id post,
     rs = pre ++ (e, DeleteItem id) :: post →
     status (handle e (DeleteItem id) (run pre empty_world).2).1 = 200 →
     id ∉ listed (run rs empty_world).2).
Proof.
  assert (Hok : ∀ rs', db_ok (λ _, True) (run rs' empty_world).2).
  { intros rs'. apply run_db_ok_any, db_ok_empty. }
  assert (Hcreated : ∀ rs' id, is_Some (inventoryDB (run rs' empty_world).2 !! id) →
                               id ∈ created_ids rs' empty_world).
  { intros rs' id [Hid|Hid]%run_keys; [|done].
    unfold empty_world in Hid. cbn [inventoryDB] in Hid.
    rewrite lookup_empty in Hid. by destruct Hid. }
  split.
  - intros id Hid%listed_live; [|done]. by apply Hcreated.
  - intros Hnd pre e id post -> Hdel Hid%listed_live; [|done].
    cbn [handle] in Hdel. apply delete_item_success in Hdel as [Hlive Hgone].
    apply Hcreated in Hlive.
    rewrite created_ids_app in Hnd. cbn [created_ids] in Hnd.
    rewrite app_nil_l in Hnd.
    rewrite run_app, run_cons in Hid. cbn [snd handle] in Hid.
    apply run_keys in Hid as [Hid|Hid].
    + rewrite Hgone in Hid. by destruct Hid.
    + apply NoDup_app in Hnd as (_ & Hdisj & _). by apply (Hdisj id).
Qed.

(** ** Live records along a run *)

Lemma new_photo_path_nonempty e id : new_photo_path e id ≠ "".
Proof.
  unfold new_photo_path, path_join. by destruct (options_cache e).
Qed.

(** Along every run from the empty inventory in which no request uses a
    key that names an inherited member of the registry and the uploads are
    stored under non-empty paths, every live id maps to an item record that
    carries this id, a non-empty name, and a photo path that is [null] or
    a non-empty string.  These are the records the theorems above speak
    about. *)
Theorem live_records_well_formed rs :
  Forall (λ x, own_keys x = true) rs →
  Forall (λ x, request_paths (λ p, p ≠ "") x.2) rs →
  ∀ id l,
    inventoryDB (run rs empty_world).2 !! id = Some l →
    ∃ r, heap (run rs empty_world).2 !! l = Some (item_obj r) ∧
         item_id r = id ∧
         item_name r ≠ "" ∧
         item_photoPath r ≠ Some "".
Proof.
  intros _ Hrs id l Hid.
  destruct (run_db_ok (λ p, p ≠ "") new_photo_path_nonempty rs empty_world
              Hrs (db_ok_empty _) id l Hid) as (r & Hl & Hi & Hn & Hp).
  exists r. split_and!; [done..|]. intros Hempty. by apply (Hp "").
Qed.

Lemma live_records_well_formed_witness :
  ∃ r, heap (run [(env0, PostRegister widget_with_photo);
                  (env0, PutItem "id-1" (UpdateBody None (Some (JStr "red"))));
                  (env_second, PutPhoto "id-1" [[x03]])] empty_world).2
         !! 1%positive = Some (item_obj r) ∧
       item_id r = "id-1" ∧
       item_name r ≠ "".
Proof.
  destruct (live_records_well_formed
              [(env0, PostRegister widget_with_photo);
               (env0, PutItem "id-1" (UpdateBody None (Some (JStr "red"))));
               (env_second, PutPhoto "id-1" [[x03]])])
    with (id := "id-1") (l := 1%positive) as (r & Hl & Hi & Hn & _).
  - repeat constructor.
  - repeat constructor. intros f [= <-]. discriminate.
  - vm_compute. reflexivity.
  - exists r. split; [exact Hl|]. split; [exact Hi|exact Hn].
Defined.

(** ** No response shows a storage path *)

Lemma search_view_no_path flag o : search_view flag o !! "photoPath" = None.
Proof.
  unfold search_view. destruct (_ && _).
  - rewrite lookup_insert_ne by done. apply client_view_no_path.
  - apply client_view_no_path.
Qed.

Lemma json_item_hides_path code l w :
  hides_path (body (json_item code l w).1).
Proof. rewrite json_item_run. apply client_view_no_path. Qed.

(** Whatever the request, no item view of the response has a [photoPath]
    property. *)
Theorem responses_hide_photoPath e r w :
  db_ok (λ _, True) w → hides_path (body (handle e r w).1).
Proof.
  intros Hok.
  destruct r as [p| |i|i b|i|i|i chunks|i flag|i flag|]; [|cbn [handle]..].
  - rewrite handle_register_run. set (w0 := (form_store p w).2).
    destruct (p_err p) eqn:He; [done|].
    destruct (truthy (first_field (p_inventory_name p))) eqn:Hn.
    + rewrite register_accepted by done. apply json_item_hides_path.
    + by rewrite register_rejected.
  - destruct (get_inventory_run w) as [-> _]; [by eapply db_ok_live|].
    cbn [body hides_path]. apply Forall_fmap, Forall_true.
    intros l. apply client_view_no_path.
  - unfold get_item. rewrite bind_run, db_get_run. cbn [fst snd].
    destruct (inventoryDB w !! i); [apply json_item_hides_path|done].
  - destruct (inventoryDB w !! i) as [l|] eqn:Hi.
    + rewrite (put_item_found i b l) by done. apply json_item_hides_path.
    + by rewrite put_item_missing.
  - destruct (inventoryDB w !! i) as [l|] eqn:Hi.
    + by rewrite (delete_item_found e i l).
    + by rewrite delete_item_missing.
  - unfold get_photo. rewrite bind_run, db_get_run. cbn [fst snd].
    destruct (inventoryDB w !! i); [|done].
    rewrite bind_run, getf_run. cbn [fst snd].
    destruct (truthy _); [|done]. cbn [negb].
    rewrite bind_run, sendFile_run. cbn [fst snd].
    by destruct (if sendFile_refuses e _ then _ else _).
  - destruct (inventoryDB w !! i) as [l|] eqn:Hi;
      [|by rewrite put_photo_missing].
    destruct (concat chunks) as [|x xs] eqn:Hc;
      [by rewrite (put_photo_empty e i l)|].
    rewrite (put_photo_found e i l) by (done || by rewrite Hc).
    by destruct (write_ok e).
  - destruct (inventoryDB w !! prop_key i) as [l|] eqn:Hi.
    + rewrite (get_search_found i flag l) by done. apply search_view_no_path.
    + by rewrite get_search_missing.
  - rewrite post_search_get_search.
    destruct (inventoryDB w !! prop_key i) as [l|] eqn:Hi.
    + rewrite (get_search_found i flag l) by done. apply search_view_no_path.
    + by rewrite get_search_missing.
  - done.
Qed.

(** ** Photo files of live records *)

Lemma no_dangling_owns w :
  no_dangling w ↔ ∀ id p, owns w id p → is_Some (disk w !! p).
Proof.
  split.
  - intros H id p (l & Hid & Hp & Hne). eauto.
  - intros H id l p Hid Hp Hne. apply (H id). by exists l.
Qed.

Lemma truthy_inv v : truthy v = true → ∃ s, v = Some (JStr s) ∧ s ≠ "".
Proof. destruct v as [[|[|a s]]|]; try done. intros _. by eexists. Qed.

Lemma db_ok_injective P w id1 id2 l :
  db_ok P w →
  inventoryDB w !! id1 = Some l → inventoryDB w !! id2 = Some l → id1 = id2.
Proof.
  intros Hok H1 H2.
  destruct (Hok _ _ H1) as (r1 & Hl1 & <- & _).
  destruct (Hok _ _ H2) as (r2 & Hl2 & <- & _).
  assert (Heq : item_obj r1 = item_obj r2) by congruence.
  by apply item_obj_inj in Heq as ->.
Qed.

Lemma db_ok_is_live P w id l :
  db_ok P w → inventoryDB w !! id = Some l → is_Some (heap w !! l).
Proof. intros Hok Hid. destruct (Hok _ _ Hid) as (r & Hl & _). eauto. Qed.

(** Worlds with the same registry whose live objects have the same
    [photoPath] have the same owners. *)
Lemma owns_frame w w' id p :
  inventoryDB w' = inventoryDB w →
  (∀ i l, inventoryDB w !! i = Some l →
          obj_at w' l !! "photoPath" = obj_at w l !! "photoPath") →
  owns w' id p ↔ owns w id p.
Proof.
  intros Hdb Hobj. unfold owns. rewrite Hdb. split.
  - intros (l & Hid & Hp & Hne). exists l. by rewrite <- (Hobj id l).
  - intros (l & Hid & Hp & Hne). exists l. by rewrite (Hobj id l).
Qed.

Lemma db_ok_all_live P w : db_ok P w → all_live w.
Proof. intros Hok id l. by apply (db_ok_is_live P). Qed.

Lemma owns_extends w w' id p :
  all_live w → extends w w' → owns w' id p ↔ owns w id p.
Proof.
  intros Hlive Hext. apply owns_frame; [apply Hext|].
  intros i l Hi. rewrite (extends_obj_at w w'); [done..|].
  by eapply Hlive.
Qed.

Lemma blobs_frame w w' :
  (∀ id p, owns w' id p → owns w id p) →
  (∀ id p, owns w id p → is_Some (disk w !! p) → is_Some (disk w' !! p)) →
  no_dangling w ∧ unshared w → no_dangling w' ∧ unshared w'.
Proof.
  intros Howns Hdisk [Hnd Hun]. rewrite no_dangling_owns in Hnd. split.
  - apply no_dangling_owns. intros id p Hp%Howns. eauto.
  - intros id1 id2 p H1%Howns H2%Howns. eauto.
Qed.

Lemma blobs_extends w w' :
  all_live w → extends w w' →
  no_dangling w ∧ unshared w → no_dangling w' ∧ unshared w'.
Proof.
  intros Hlive Hext. apply blobs_frame.
  - intros id p. by rewrite (owns_extends w w').
  - intros id p _. destruct Hext as (_ & -> & _). done.
Qed.

(** The file released by a handler belongs to the record it handles, so
    the files of the other records stay. *)
Lemma released_disk_keeps e w id l p id' :
  unshared w →
  inventoryDB w !! id = Some l →
  owns w id' p → id' ≠ id →
  is_Some (disk w !! p) →
  is_Some (released_disk e w (obj_at w l !! "photoPath") !! p).
Proof.
  intros Hun Hid Hown Hne Hp. unfold released_disk.
  destruct (truthy (obj_at w l !! "photoPath")) eqn:Ht; [|done].
  destruct (unlink_succeeds e w _); [|done]. cbn [andb].
  apply truthy_inv in Ht as (s & Hs & Hnes). rewrite Hs. cbn [js_to_string].
  rewrite lookup_delete_ne; [done|]. intros <-.
  apply Hne. apply (Hun id' id s); [done|]. by exists l.
Qed.

Lemma delete_item_keeps_blobs P e id w :
  db_ok P w →
  no_dangling w ∧ unshared w →
  no_dangling (delete_item e id w).2 ∧ unshared (delete_item e id w).2.
Proof.
  intros Hok Hb. destruct (inventoryDB w !! id) as [l|] eqn:Hid;
    [|by rewrite delete_item_missing].
  rewrite (delete_item_found e id l) by done. cbn [snd].
  assert (Hless : ∀ i p,
            owns (World (heap w) (delete id (inventoryDB w))
                    (released_disk e w (obj_at w l !! "photoPath"))
                    (trace w ++ release_events e w (obj_at w l !! "photoPath")
                       ++ [EDbDelete id])) i p →
            i ≠ id ∧ owns w i p).
  { intros i p (l' & Hi & Hp & Hnep). cbn [inventoryDB] in Hi.
    apply lookup_delete_Some in Hi as [Hne Hi].
    split; [congruence|]. by exists l'. }
  destruct Hb as [Hnd Hun]. rewrite no_dangling_owns in Hnd. split.
  - apply no_dangling_owns. intros i p [Hne Hown]%Hless. cbn [disk].
    eapply released_disk_keeps; eauto.
  - intros i1 i2 p [_ H1]%Hless [_ H2]%Hless. eauto.
Qed.

Lemma assign_keeps_photoPath k v (o : obj) :
  k ≠ "photoPath" → assign_if_truthy k v o !! "photoPath" = o !! "photoPath".
Proof.
  intros Hk. unfold assign_if_truthy.
  destruct v as [x|]; [|done]. destruct (truthy (Some x)); [|done].
  by rewrite lookup_insert_ne.
Qed.

Lemma obj_at_alter f l l' h d fs t :
  obj_at (World (alter f l h) d fs t) l'
  = if decide (l = l')
    then match h !! l with Some o => f o | None => ∅ end
    else obj_at (World h d fs t) l'.
Proof.
  unfold obj_at. cbn [heap]. rewrite lookup_alter.
  case_decide as Hl; [subst l'|done]. by destruct (h !! l).
Qed.

Lemma put_item_keeps_blobs P id b w :
  db_ok P w →
  no_dangling w ∧ unshared w →
  no_dangling (put_item id b w).2 ∧ unshared (put_item id b w).2.
Proof.
  intros Hok Hb. destruct (inventoryDB w !! id) as [l|] eqn:Hid;
    [|by rewrite put_item_missing].
  rewrite (put_item_found id b l) by done.
  set (w1 := World _ _ _ _).
  assert (Hok1 : db_ok P w1 ∧ (no_dangling w1 ∧ unshared w1)).
  { split.
    - intros i l' Hi. cbn [inventoryDB heap w1] in *.
      destruct (Hok i l' Hi) as (r & Hl & Hr).
      destruct (decide (l' = l)) as [->|Hne].
      + eexists. rewrite lookup_alter_eq, Hl.
        cbn [fmap option_fmap option_map]. unfold compose.
        rewrite assign_name, assign_description. split; [done|].
        destruct Hr as (Hi' & Hn & Hp). split_and!; try done.
        cbn [item_name]. destruct (b_name b) as [[|[|a s]]|]; done.
      + exists r. by rewrite lookup_alter_ne.
    - revert Hb. apply blobs_frame; [|done].
      intros i p. apply owns_frame; [done|].
      intros i' l' Hi'. unfold w1. rewrite obj_at_alter.
      case_decide as Hl; [subst l'|by destruct w].
      destruct (db_ok_is_live P w i' l Hok Hi') as [o Ho].
      rewrite Ho, (obj_at_Some _ _ _ Ho). unfold compose.
      by rewrite !assign_keeps_photoPath. }
  destruct Hok1 as [Hok1 Hb1].
  eapply blobs_extends;
    [by eapply db_ok_all_live|apply json_item_extends|exact Hb1].
Qed.

Lemma put_photo_keeps_blobs P e id chunks w :
  db_ok P w →
  fresh_names e (PutPhoto id chunks) w →
  ¬ failed_photo_write e (PutPhoto id chunks) w →
  no_dangling w ∧ unshared w →
  no_dangling (put_photo e id chunks w).2 ∧
  unshared (put_photo e id chunks w).2.
Proof.
  intros Hok Hfresh Hnofail Hb.
  destruct (inventoryDB w !! id) as [l|] eqn:Hid;
    [|by rewrite put_photo_missing].
  destruct (concat chunks) as [|x xs] eqn:Hc;
    [by rewrite (put_photo_empty e id l)|].
  rewrite (put_photo_found e id l) by (done || by rewrite Hc).
  destruct (write_ok e) eqn:Hw.
  2:{ exfalso. apply Hnofail. cbn. rewrite Hid, Hc. eauto. }
  cbn [snd]. set (w' := World _ _ _ _).
  destruct (db_ok_is_live P w id l Hok Hid) as [o Ho].
  assert (Hcases : ∀ i p, owns w' i p →
            (i = id ∧ p = new_photo_path e id) ∨ (i ≠ id ∧ owns w i p)).
  { intros i p (l' & Hi & Hp & Hne). cbn [inventoryDB w'] in Hi.
    unfold w' in Hp. rewrite obj_at_alter in Hp.
    case_decide as Hl.
    - subst l'. left. split; [by eapply db_ok_injective|].
      rewrite Ho, lookup_insert_eq in Hp. congruence.
    - right. split; [congruence|]. by exists l'. }
  destruct Hb as [Hnd Hun]. rewrite no_dangling_owns in Hnd. cbn in Hfresh.
  split.
  - apply no_dangling_owns.
    intros i p [[-> ->]|[Hne Hown]]%Hcases; cbn [disk w'].
    + rewrite lookup_insert_eq. eauto.
    + destruct (decide (new_photo_path e id = p)) as [<-|Hp].
      * rewrite lookup_insert_eq. eauto.
      * rewrite lookup_insert_ne by done.
        eapply released_disk_keeps; eauto.
  - intros i1 i2 p [[-> ->]|[Hne1 H1]]%Hcases [[-> Hp2]|[Hne2 H2]]%Hcases.
    + done.
    + by destruct (Hfresh i2).
    + subst p. by destruct (Hfresh i1).
    + eauto.
Qed.

Lemma register_keeps_blobs P e p w :
  db_ok P w →
  fresh_names e (PostRegister p) w →
  no_dangling w ∧ unshared w →
  no_dangling (handle e (PostRegister p) w).2 ∧
  unshared (handle e (PostRegister p) w).2.
Proof.
  intros Hok Hfresh Hb. cbn in Hfresh.
  rewrite handle_register_run, form_store_run. cbn [fst snd].
  set (w0 := World _ _ _ _).
  assert (Hown0 : ∀ i q, owns w0 i q ↔ owns w i q).
  { intros i q. by apply owns_frame. }
  assert (Hdisk0 : ∀ q, is_Some (disk w !! q) → is_Some (disk w0 !! q)).
  { intros q Hq. cbn [disk w0]. by apply stored_keeps. }
  assert (Hb0 : no_dangling w0 ∧ unshared w0).
  { revert Hb. apply blobs_frame; [intros i q; by rewrite Hown0|eauto]. }
  destruct (p_err p) eqn:He.
  { rewrite form_destroy_run. cbn [snd]. revert Hb0. apply blobs_frame.
    - intros i q. by apply owns_frame.
    - intros i q Hown Hq. cbn [disk]. destruct (unlink_ok e); [|done].
      rewrite unlinked_lookup_ne; [done|]. intros f Hf <-.
      apply (Hfresh f Hf i). by apply Hown0. }
  destruct (truthy (first_field (p_inventory_name p))) eqn:Hn.
  - rewrite register_accepted by done. set (w1 := World _ _ _ _).
    assert (Hlive1 : all_live w1).
    { intros i l. cbn [inventoryDB heap w1 w0]. rewrite lookup_insert.
      case_decide as Hi.
      - intros [= <-]. rewrite lookup_insert_eq. eauto.
      - intros Hl%(db_ok_is_live P w i l Hok).
        rewrite lookup_insert_ne; [done|]. by apply fresh_loc_ne. }
    eapply blobs_extends; [exact Hlive1|apply json_item_extends|].
    assert (Hcases : ∀ i q, owns w1 i q →
              (i = randomUUID e ∧
               ∃ f, first_file (p_photo p) = Some f ∧ q = filepath f) ∨
              (i ≠ randomUUID e ∧ owns w i q)).
    { intros i q (l & Hi & Hq & Hne). cbn [inventoryDB w1 w0] in Hi.
      rewrite lookup_insert in Hi. case_decide as Hid.
      - left. split; [done|]. injection Hi as <-.
        unfold w1 in Hq. rewrite obj_at_insert_eq, item_obj_photoPath in Hq.
        unfold new_item in Hq. cbn [item_photoPath] in Hq.
        destruct (first_file (p_photo p)) as [f|]; [|done].
        exists f. split; [done|]. cbn in Hq. congruence.
      - right. split; [done|]. exists l. split_and!; [done| |done].
        rewrite <- Hq. unfold obj_at, w1, w0. cbn [heap].
        rewrite lookup_insert_ne; [done|].
        apply fresh_loc_ne. by eapply db_ok_is_live. }
    destruct Hb as [Hnd Hun]. rewrite no_dangling_owns in Hnd. split.
    + apply no_dangling_owns.
      intros i q [[-> (f & Hf & ->)]|[Hne Hown]]%Hcases; cbn [disk w1 w0].
      * by apply stored_elem, first_file_uploads.
      * apply Hdisk0. eauto.
    + intros i1 i2 q [[-> (f1 & Hf1 & ->)]|[Hne1 H1]]%Hcases
        [[-> (f2 & Hf2 & Hq)]|[Hne2 H2]]%Hcases.
      * done.
      * by destruct (Hfresh f1 (first_file_uploads _ _ Hf1) i2).
      * subst q. by destruct (Hfresh f2 (first_file_uploads _ _ Hf2) i1).
      * eauto.
  - rewrite register_rejected by done.
    destruct (first_file (p_photo p)) as [f|] eqn:Hf; [|done].
    revert Hb0. apply blobs_frame.
    + intros i q. by apply owns_frame.
    + intros i q Hown Hq. cbn [snd disk].
      destruct (unlink_succeeds e w0 (filepath f)); [|done].
      rewrite lookup_delete_ne; [done|]. intros <-.
      apply (Hfresh f (first_file_uploads _ _ Hf) i). by apply Hown0.
Qed.

(** Every request other than a photo replacement whose write fails keeps
    the photo files of the live records in place and unshared, provided
    the file names produced during the request are fresh. *)
Theorem handle_keeps_blobs P e r w :
  db_ok P w →
  fresh_names e r w →
  ¬ failed_photo_write e r w →
  no_dangling w ∧ unshared w →
  no_dangling (handle e r w).2 ∧ unshared (handle e r w).2.
Proof.
  intros Hok Hfresh Hnofail Hb.
  pose proof (db_ok_all_live P w Hok) as Hlive.
  destruct r as [p| |i|i b|i|i|i chunks|i flag|i flag|].
  - by eapply register_keeps_blobs.
  - eapply blobs_extends; [done| |done].
    by apply get_inventory_run, db_ok_live with P.
  - eapply blobs_extends; [done|apply get_item_extends|done].
  - by eapply put_item_keeps_blobs.
  - by eapply delete_item_keeps_blobs.
  - cbn [handle]. by rewrite get_photo_world.
  - by eapply put_photo_keeps_blobs.
  - eapply blobs_extends; [done|apply get_search_extends|done].
  - cbn [handle]. rewrite post_search_get_search.
    eapply blobs_extends; [done|apply get_search_extends|done].
  - done.
Qed.

Lemma run_keeps_blobs rs : ∀ w,
  db_ok (λ _, True) w →
  well_behaved rs w →
  no_dangling w ∧ unshared w →
  no_dangling (run rs w).2 ∧ unshared (run rs w).2.
Proof.
  induction rs as [|[e r] rs IH]; intros w Hok Hwb Hb; [done|].
  destruct Hwb as (Hfresh & Hnofail & Hwb). rewrite run_cons. cbn [snd].
  apply IH; [|done|by eapply handle_keeps_blobs].
  apply handle_db_ok; [done|by destruct r|done].
Qed.

(** In every world reached from the empty inventory by a run in which no
    request uses a key that names an inherited member of the registry, the
    file names are fresh and no photo write fails, every photo path of a
    live record names a file of the cache directory. *)
Theorem no_dangling_without_failed_write rs :
  Forall (λ x, own_keys x = true) rs →
  well_behaved rs empty_world → no_dangling (run rs empty_world).2.
Proof.
  intros _ Hwb. apply (run_keeps_blobs rs empty_world); [apply db_ok_empty|done|].
  split.
  - intros id l p Hid. unfold empty_world in Hid. cbn [inventoryDB] in Hid.
    by rewrite lookup_empty in Hid.
  - intros id1 id2 p (l & Hid & _). unfold empty_world in Hid.
    cbn [inventoryDB] in Hid. by rewrite lookup_empty in Hid.
Qed.

(** ** Evaluated runs *)

Example w_photo_db : inventoryDB w_photo !! "id-1" = Some 1%positive.
Proof. vm_compute. reflexivity. Defined.

Example w_photo_heap : heap w_photo !! 1%positive = Some (item_obj item_photo).
Proof. vm_compute. reflexivity. Defined.

(** Registering a widget without a photo answers its view, which has no
    [photoUrl]. *)
Example register_widget :
  (handle env0 (PostRegister widget) empty_world).1
  = Response 201 (BItem (<["id" := JStr "id-1"]> (<["name" := JStr "Widget"]>
                          (<["description" := JStr ""]> ∅)))).
Proof. vm_compute. reflexivity. Qed.

(** The assumption of distinct generated ids in the second half of the
    listing theorem is needed: were [crypto.randomUUID] to return an id a
    second time, the id would be listed again after its deletion. *)
Example listed_again_after_reuse :
  listed (run [(env0, PostRegister widget);
               (env0, DeleteItem "id-1");
               (env0, PostRegister widget)] empty_world).2 = ["id-1"].
Proof. vm_compute. reflexivity. Qed.

(** C1, as stated, fails: on an item that has a photo the replacement
    unlinks the previous file before it writes the new one; no write
    precedes an unlink. *)
Lemma put_photo_unlinks_before_write :
  new_events w_photo (put_photo env0 "id-1" [[x03]] w_photo).2
  = [EUnlink "/cache/up1.png" true;
     EWriteFile "/cache/photo_id-1_1700000000000.jpg" true;
     ESetField 1 "photoPath" (JStr "/cache/photo_id-1_1700000000000.jpg")] ∧
  occurs_before is_write is_unlink
    (new_events w_photo (put_photo env0 "id-1" [[x03]] w_photo).2) = false.
Proof. split; vm_compute; reflexivity. Qed.

Lemma put_photo_effect_order_witness :
  inventoryDB w_photo !! "id-1" = Some 1%positive ∧
  (put_photo env0 "id-1" [[x03]] w_photo).1
  = Response 200 (BMessage "Photo updated").
Proof.
  split; [exact w_photo_db|].
  refine (proj1 (put_photo_effect_order env0 w_photo "id-1" 1 item_photo
                   "/cache/up1.png" [[x03]] w_photo_db w_photo_heap
                   eq_refl _ _ eq_refl)).
  - discriminate.
  - discriminate.
Defined.

(** C2 fails on the code: after a registration with a photo, a photo
    replacement whose write fails is answered 500 and leaves the record
    pointing at the file it has just unlinked. *)
Theorem put_photo_write_failure_dangles :
  let rs := [(env0, PostRegister widget_with_photo);
             (env_write_fails, PutPhoto "id-1" [[x03]])] in
  status <$> (run rs empty_world).1 = [201; 500] ∧
  inventoryDB (run rs empty_world).2 !! "id-1" = Some 1%positive ∧
  obj_at (run rs empty_world).2 1 !! "photoPath"
    = Some (JStr "/cache/up1.png") ∧
  disk (run rs empty_world).2 !! "/cache/up1.png" = None ∧
  ¬ no_dangling (run rs empty_world).2.
Proof.
  cbv zeta. split_and!; try (vm_compute; reflexivity).
  intros H. specialize (H "id-1" 1%positive "/cache/up1.png").
  destruct H as [data Hdata]; try (vm_compute; reflexivity); [discriminate|].
  vm_compute in Hdata. discriminate.
Qed.

(** C3, as stated, fails.  When the unlink fails, a registration rejected
    for its missing name leaves the uploaded file in the cache directory,
    and only logs the failure.  And when the [photo] field came with two
    files, the rejection unlinks the first and leaves the second, even
    though the unlink succeeds. *)
Lemma register_rejected_leaves_upload :
  (status (handle env_unlink_fails (PostRegister form_without_name)
             empty_world).1 = 400 ∧
   disk (handle env_unlink_fails (PostRegister form_without_name)
           empty_world).2 !! "/cache/up1.png" = Some [x01; x02] ∧
   new_events empty_world
     (handle env_unlink_fails (PostRegister form_without_name) empty_world).2
   = [EUnlink "/cache/up1.png" false; ELogError]) ∧
  (status (handle env0 (PostRegister form_two_photos) empty_world).1 = 400 ∧
   disk (handle env0 (PostRegister form_two_photos) empty_world).2
     !! "/cache/up1.png" = None ∧
   disk (handle env0 (PostRegister form_two_photos) empty_world).2
     !! "/cache/up2.png" = Some [x03]).
Proof. split_and!; vm_compute; reflexivity. Qed.

Lemma register_rejected_unlinks_upload_witness :
  (first_file (p_photo form_parse_failed)
     = Some (Upload "/cache/up1.png" [x01; x02]) ∧
   disk (handle env0 (PostRegister form_parse_failed) empty_world).2
     !! "/cache/up1.png" = None) ∧
  (first_file (p_photo form_without_name)
     = Some (Upload "/cache/up1.png" [x01; x02]) ∧
   disk (handle env0 (PostRegister form_without_name) empty_world).2
     !! "/cache/up1.png" = None).
Proof.
  split; (split; [reflexivity|]).
  - refine (proj1 (proj2 (proj2 (register_rejected_unlinks_upload env0
              empty_world form_parse_failed (Upload "/cache/up1.png" [x01; x02])
              (or_introl eq_refl) eq_refl))) eq_refl).
  - refine (proj1 (proj2 (proj2 (register_rejected_unlinks_upload env0
              empty_world form_without_name (Upload "/cache/up1.png" [x01; x02])
              (or_intror eq_refl) eq_refl))) eq_refl).
Defined.


Lemma delete_item_best_effort_witness :
  inherited "id-9" = false ∧
  delete_item env_unlink_fails "id-9" w_photo = (not_found, w_photo) ∧
  (delete_item env_unlink_fails "id-1" w_photo).1
  = Response 200 (BMessage "Item id-1 deleted").
Proof.
  split; [reflexivity|]. split.
  - apply (proj1 (delete_item_best_effort env_unlink_fails w_photo "id-9"));
      [|reflexivity].
    vm_compute. reflexivity.
  - refine (proj1 (proj2 (delete_item_best_effort env_unlink_fails w_photo
                            "id-1") 1%positive item_photo
                      w_photo_db w_photo_heap _)).
    discriminate.
Defined.

Lemma search_photo_link_witness :
  inventoryDB w_photo !! prop_key (Some "id-1") = Some 1%positive ∧
  ∃ v, (get_search (Some "id-1") (Some "on") w_photo).1
         = Response 200 (BItem v) ∧
       v !! "description"
         = Some (JStr "blue [Photo Link: /inventory/id-1/photo]").
Proof.
  split; [exact w_photo_db|].
  destruct (search_photo_link w_photo (Some "id-1") (Some "on") 1 item_photo
              w_photo_db w_photo_heap) as (v & Hget & _ & Hon & _).
  - discriminate.
  - exists v. split; [exact Hget|]. apply Hon; [reflexivity|]. by eexists.
Defined.

Lemma listed_ids_created_not_deleted_witness :
  NoDup (created_ids [(env0, PostRegister widget_with_photo);
                      (env0, DeleteItem "id-1");
                      (env0, GetInventory)] empty_world) ∧
  "id-1" ∉ listed (run [(env0, PostRegister widget_with_photo);
                        (env0, DeleteItem "id-1");
                        (env0, GetInventory)] empty_world).2.
Proof.
  assert (Hnd : NoDup (created_ids [(env0, PostRegister widget_with_photo);
                                    (env0, DeleteItem "id-1");
                                    (env0, GetInventory)] empty_world)).
  { change (NoDup ["id-1"]). apply NoDup_singleton. }
  split; [exact Hnd|].
  refine (proj2 (listed_ids_created_not_deleted _) Hnd
            [(env0, PostRegister widget_with_photo)] env0 "id-1"
            [(env0, GetInventory)] eq_refl _).
  vm_compute. reflexivity.
Defined.

Lemma itemToClient_presentation_witness :
  heap w_photo !! 1%positive = Some (item_obj item_photo) ∧
  obj_at (itemToClient 1 w_photo).2 (itemToClient 1 w_photo).1 !! "photoUrl"
  = Some (JStr "/inventory/id-1/photo").
Proof.
  split; [exact w_photo_heap|].
  refine (proj1 (proj2 (proj2 (proj2 (proj2 (proj2
            (itemToClient_presentation w_photo 1 item_photo
               w_photo_heap _))))))).
  discriminate.
Defined.

Lemma put_photo_empty_body_unchanged_witness :
  inventoryDB w_photo !! "id-1" = Some 1%positive ∧
  put_photo env0 "id-1" [[]; []] w_photo
  = (Response 400 (BError "Empty photo data"), w_photo).
Proof.
  split; [exact w_photo_db|].
  exact (put_photo_empty_body_unchanged env0 w_photo "id-1" 1 [[]; []]
           w_photo_db eq_refl).
Defined.

Lemma search_leaves_store_unchanged_witness :
  heap w_photo !! 1%positive = Some (item_obj item_photo) ∧
  heap (get_search (Some "id-1") (Some "on") w_photo).2 !! 1%positive
  = Some (item_obj item_photo) ∧
  heap (post_search (Some "id-1") (Some "on") w_photo).2 !! 1%positive
  = Some (item_obj item_photo).
Proof.
  split; [exact w_photo_heap|].
  destruct (search_leaves_store_unchanged w_photo (Some "id-1") (Some "on")
              1 (item_obj item_photo) w_photo_heap)
    as [(Hget & _) (Hpost & _)].
  split; [exact Hget|exact Hpost].
Defined.

(** * Further properties of the handlers *)

Lemma client_view_other (o : obj) k :
  k ≠ "photoPath" → k ≠ "photoUrl" → client_view o !! k = o !! k.
Proof.
  intros H1 H2. unfold client_view. rewrite lookup_delete_ne by done.
  destruct (truthy _); [|done]. by rewrite lookup_insert_ne.
Qed.

Lemma fresh_insert_ne (h : gmap loc obj) l o :
  fresh (dom (<[l := o]> h)) ≠ l.
Proof.
  intros Heq. pose proof (is_fresh (dom (<[l := o]> h))) as Hf.
  rewrite Heq in Hf. apply Hf, elem_of_dom. rewrite lookup_insert_eq. eauto.
Qed.

Lemma lookup_below_fresh (h : gmap loc obj) l o o' :
  <[fresh (dom (<[l := o]> h)) := o']> (<[l := o]> h) !! l = Some o.
Proof.
  rewrite lookup_insert_ne by apply fresh_insert_ne. apply lookup_insert_eq.
Qed.

Lemma w_photo_ok : db_ok (λ p, p ≠ "") w_photo.
Proof.
  apply handle_db_ok; [apply new_photo_path_nonempty| |apply db_ok_empty].
  intros f [= <-]. discriminate.
Qed.

Lemma db_ok_weaken (P Q : string → Prop) w :
  (∀ p, P p → Q p) → db_ok P w → db_ok Q w.
Proof.
  intros HPQ Hok id l Hid. destruct (Hok id l Hid) as (r & Hl & Hi & Hn & Hp).
  exists r. split_and!; eauto.
Qed.

(** ** Registration *)

(** An accepted registration stores a new record under the generated id:
    it carries the generated id, the name, the description (the empty
    string when the form has none) and the path of the upload, it lives in
    a fresh object, the answer is 201 with its view, and neither the files
    nor any object that existed before is touched. *)
Theorem register_creates_record e p w s :
  p_err p = false →
  first_field (p_inventory_name p) = Some (JStr s) →
  s ≠ "" →
  ∃ l v,
    heap w !! l = None ∧
    inventoryDB (register e p w).2 = <[randomUUID e := l]> (inventoryDB w) ∧
    heap (register e p w).2 !! l
      = Some (item_obj (Item (randomUUID e) s
                             (or_empty (first_field (p_description p)))
                             (filepath <$> first_file (p_photo p)))) ∧
    (first_field (p_description p) = None →
     obj_at (register e p w).2 l !! "description" = Some (JStr "")) ∧
    (register e p w).1 = Response 201 (BItem v) ∧
    v !! "id" = Some (JStr (randomUUID e)) ∧
    v !! "name" = Some (JStr s) ∧
    v !! "photoPath" = None ∧
    disk (register e p w).2 = disk w ∧
    (∀ l' o, heap w !! l' = Some o → heap (register e p w).2 !! l' = Some o).
Proof.
  intros He Hname Hs.
  assert (Hn : truthy (first_field (p_inventory_name p)) = true).
  { rewrite Hname. by destruct s. }
  assert (Hitem : new_item e p
                  = Item (randomUUID e) s
                         (or_empty (first_field (p_description p)))
                         (filepath <$> first_file (p_photo p))).
  { unfold new_item. by rewrite Hname. }
  exists (fresh (dom (heap w))), (client_view (item_obj (new_item e p))).
  rewrite register_accepted, json_item_run by done.
  cbn [fst snd heap inventoryDB disk]. rewrite obj_at_insert_eq.
  set (l := fresh (dom (heap w))).
  pose proof (fresh_insert_ne (heap w) l (item_obj (new_item e p))) as Hc.
  split_and!.
  - apply fresh_loc_unused.
  - done.
  - rewrite lookup_insert_ne by done. by rewrite lookup_insert_eq, Hitem.
  - intros Hd. unfold obj_at. cbn [heap].
    rewrite lookup_insert_ne by done. rewrite lookup_insert_eq. cbn.
    rewrite item_obj_description, Hitem. cbn [item_description].
    by rewrite Hd.
  - done.
  - rewrite client_view_other by done. by rewrite item_obj_id.
  - rewrite client_view_other by done. by rewrite item_obj_name, Hitem.
  - apply client_view_no_path.
  - done.
  - intros l' o Hl'.
    assert (l ≠ l') by (apply fresh_loc_ne; eauto).
    rewrite lookup_insert_ne.
    + by rewrite lookup_insert_ne.
    + intros Heq.
      pose proof (is_fresh (dom (<[l := item_obj (new_item e p)]> (heap w))))
        as Hf.
      rewrite Heq in Hf. apply Hf, elem_of_dom.
      rewrite lookup_insert_ne by done. eauto.
Qed.

Lemma register_creates_record_witness :
  ∃ l v,
    heap empty_world !! l = None ∧
    inventoryDB (register env0 widget empty_world).2
      = <[randomUUID env0 := l]> (inventoryDB empty_world) ∧
    (register env0 widget empty_world).1 = Response 201 (BItem v).
Proof.
  destruct (register_creates_record env0 widget empty_world "Widget")
    as (l & v & Hl & Hdb & _ & _ & Hresp & _).
  - reflexivity.
  - reflexivity.
  - discriminate.
  - exists l, v. split; [exact Hl|]. split; [exact Hdb|exact Hresp].
Defined.

(** A rejected registration, whether the form could not be parsed or the
    name is missing or empty, creates nothing: the registry and every
    object are as before, and without an upload so is the whole world.  It
    is answered 500 in the first case and 400 in the second. *)
Theorem register_rejected_creates_nothing e p w :
  p_err p = true ∨ truthy (first_field (p_inventory_name p)) = false →
  status (register e p w).1 = (if p_err p then 500 else 400) ∧
  inventoryDB (register e p w).2 = inventoryDB w ∧
  heap (register e p w).2 = heap w ∧
  (first_file (p_photo p) = None → (register e p w).2 = w).
Proof.
  intros Hrej. destruct (p_err p) eqn:He.
  { by rewrite register_parse_error. }
  destruct Hrej as [?|Hn]; [done|].
  rewrite register_rejected by done. cbn [fst snd status].
  destruct (first_file (p_photo p)); split_and!; try done.
Qed.

Lemma register_rejected_creates_nothing_witness :
  truthy (first_field (p_inventory_name (Parsed false (Some (FArr [])) None None)))
    = false ∧
  (register env0 (Parsed false (Some (FArr [])) None None) w_photo).2 = w_photo.
Proof.
  split; [reflexivity|].
  refine (proj2 (proj2 (proj2 (register_rejected_creates_nothing env0
            (Parsed false (Some (FArr [])) None None) w_photo _))) eq_refl).
  right. reflexivity.
Defined.

(** After an accepted registration, [GET /inventory/:id] with the returned
    id answers 200 with the very view the registration answered. *)
Theorem register_then_get_item e p w :
  p_err p = false →
  truthy (first_field (p_inventory_name p)) = true →
  (get_item (randomUUID e) (register e p w).2).1
  = Response 200 (body (register e p w).1).
Proof.
  intros He Hn. rewrite register_accepted, json_item_run by done.
  cbn [fst snd body]. rewrite obj_at_insert_eq.
  unfold get_item. rewrite bind_run, db_get_run.
  cbn [fst snd inventoryDB]. rewrite lookup_insert_eq, json_item_run.
  cbn [fst]. by rewrite (obj_at_Some _ _ (item_obj (new_item e p)))
    by apply lookup_below_fresh.
Qed.

Lemma register_then_get_item_witness :
  (get_item "id-1" (register env0 widget_with_photo empty_world).2).1
  = Response 200 (body (register env0 widget_with_photo empty_world).1).
Proof.
  exact (register_then_get_item env0 widget_with_photo empty_world
           eq_refl eq_refl).
Defined.

Lemma truthy_str s : s ≠ "" → truthy (Some (JStr s)) = true.
Proof. by destruct s. Qed.

Lemma get_photo_answer e w id l r :
  inventoryDB w !! id = Some l →
  heap w !! l = Some (item_obj r) →
  item_photoPath r ≠ Some "" →
  (get_photo e id w).1 =
    match item_photoPath r with
    | None => Response 404 (BError "Photo Not Found")
    | Some p =>
        if sendFile_refuses e p
        then Response 404 (BError "Photo file missing on server")
        else match disk w !! p with
             | Some data => Response 200 (BFile data)
             | None => Response 404 (BError "Photo file missing on server")
             end
    end.
Proof.
  intros Hid Hl Hp.
  unfold get_photo. rewrite bind_run, db_get_run. cbn [fst snd]. rewrite Hid.
  rewrite bind_run, getf_run. cbn [fst snd].
  rewrite (photoPath_of_item _ _ _ Hl).
  destruct (item_photoPath r) as [p|]; [|done].
  cbn [path_val]. rewrite truthy_str by congruence. cbn [negb].
  rewrite bind_run, sendFile_run. cbn [fst snd js_to_string].
  destruct (sendFile_refuses e p); [done|]. by destruct (disk w !! p).
Qed.

(** Through the whole request, a photo uploaded with an accepted
    registration is what [GET /inventory/:id/photo] then answers, byte for
    byte, provided the parser gave each uploaded file a path of its own
    and [res.sendFile] does not refuse the path of the photo. *)
Theorem register_then_get_photo e e' p w f :
  p_err p = false →
  truthy (first_field (p_inventory_name p)) = true →
  first_file (p_photo p) = Some f →
  NoDup (filepath <$> uploads (p_photo p)) →
  filepath f ≠ "" →
  sendFile_refuses e' (filepath f) = false →
  (get_photo e' (randomUUID e) (handle e (PostRegister p) w).2).1
  = Response 200 (BFile (content f)).
Proof.
  intros He Hn Hf Hnd Hpath Hsend.
  rewrite handle_register_run, He, form_store_run. cbn [snd].
  rewrite register_accepted, json_item_run by done.
  cbn [fst snd heap inventoryDB disk trace].
  rewrite (get_photo_answer _ _ _ (fresh (dom (heap w))) (new_item e p)).
  - unfold new_item. cbn [item_photoPath]. rewrite Hf.
    cbn [fmap option_fmap option_map disk]. rewrite Hsend.
    rewrite first_file_head in Hf.
    destruct (uploads (p_photo p)) as [|g fs]; [done|].
    injection Hf as ->. by rewrite stored_first.
  - cbn [inventoryDB]. apply lookup_insert_eq.
  - cbn [heap]. apply lookup_below_fresh.
  - unfold new_item. cbn [item_photoPath]. rewrite Hf. cbn. congruence.
Qed.

Lemma register_then_get_photo_witness :
  sendFile_refuses env0 "/cache/up1.png" = false ∧
  (get_photo env0 "id-1"
     (handle env0 (PostRegister widget_with_photo) empty_world).2).1
  = Response 200 (BFile [x01; x02]).
Proof.
  split; [reflexivity|].
  refine (register_then_get_photo env0 env0 widget_with_photo empty_world
            (Upload "/cache/up1.png" [x01; x02]) eq_refl eq_refl eq_refl
            _ _ eq_refl).
  - apply NoDup_singleton.
  - discriminate.
Defined.

(** ** Reading *)

(** A request for an id that is not live, and that does not name a member
    the registry inherits from [Object.prototype], is answered 404 by every
    handler that takes an id, and nothing at all changes. *)
Theorem missing_id_not_found e w id b chunks flag :
  inventoryDB w !! id = None →
  inherited id = false →
  get_item id w = (not_found, w) ∧
  put_item id b w = (not_found, w) ∧
  delete_item e id w = (not_found, w) ∧
  get_photo e id w = (not_found, w) ∧
  put_photo e id chunks w = (not_found, w) ∧
  get_search (Some id) flag w = (not_found, w) ∧
  post_search (Some id) flag w = (not_found, w).
Proof.
  intros Hid _. split_and!.
  - unfold get_item. rewrite bind_run, db_get_run. cbn [fst snd].
    by rewrite Hid.
  - by apply put_item_missing.
  - by apply delete_item_missing.
  - unfold get_photo. rewrite bind_run, db_get_run. cbn [fst snd].
    by rewrite Hid.
  - by apply put_photo_missing.
  - by apply get_search_missing.
  - rewrite post_search_get_search. by apply get_search_missing.
Qed.

Lemma missing_id_not_found_witness :
  inventoryDB w_photo !! "id-9" = None ∧
  inherited "id-9" = false ∧
  get_photo env0 "id-9" w_photo = (not_found, w_photo).
Proof.
  assert (Hid : inventoryDB w_photo !! "id-9" = None)
    by (vm_compute; reflexivity).
  split; [exact Hid|]. split; [reflexivity|].
  exact (proj1 (proj2 (proj2 (proj2
           (missing_id_not_found env0 w_photo "id-9" (UpdateBody None None)
              [] None Hid eq_refl))))).
Defined.

(** [GET /inventory/:id/photo] on a live record never changes anything.
    It answers 404 when the record has no photo, 404 when [res.sendFile]
    refuses the photo path (a dot segment, a NUL character) or the file it
    names is not in the cache directory, and otherwise 200 with the bytes
    of that file. *)
Theorem get_photo_cases e w id l r :
  inventoryDB w !! id = Some l →
  heap w !! l = Some (item_obj r) →
  item_photoPath r ≠ Some "" →
  (get_photo e id w).2 = w ∧
  (get_photo e id w).1 =
    match item_photoPath r with
    | None => Response 404 (BError "Photo Not Found")
    | Some p =>
        if sendFile_refuses e p
        then Response 404 (BError "Photo file missing on server")
        else match disk w !! p with
             | Some data => Response 200 (BFile data)
             | None => Response 404 (BError "Photo file missing on server")
             end
    end.
Proof.
  intros Hid Hl Hp.
  split; [apply get_photo_world|by apply (get_photo_answer e w id l)].
Qed.

Lemma get_photo_cases_witness :
  (inventoryDB w_photo !! "id-1" = Some 1%positive ∧
   (get_photo env0 "id-1" w_photo).1 = Response 200 (BFile [x01; x02])) ∧
  (inventoryDB w_hidden !! "id-1" = Some 1%positive ∧
   disk w_hidden !! "/cache/.hidden/up1.png" = Some [x01; x02] ∧
   (get_photo env0 "id-1" w_hidden).1
   = Response 404 (BError "Photo file missing on server")).
Proof.
  split.
  - split; [exact w_photo_db|].
    refine (eq_trans (proj2 (get_photo_cases env0 w_photo "id-1" 1 item_photo
                               w_photo_db w_photo_heap _)) _).
    + discriminate.
    + vm_compute. reflexivity.
  - assert (Hdb : inventoryDB w_hidden !! "id-1" = Some 1%positive)
      by (vm_compute; reflexivity).
    split; [exact Hdb|]. split; [vm_compute; reflexivity|].
    refine (eq_trans (proj2 (get_photo_cases env0 w_hidden "id-1" 1
                               (Item "id-1" "Widget" "blue"
                                     (Some "/cache/.hidden/up1.png"))
                               Hdb _ _)) _).
    + vm_compute. reflexivity.
    + discriminate.
    + vm_compute. reflexivity.
Defined.

Lemma mapM_itemToClient_extends ls : ∀ w,
  extends w (mapM itemToClient ls w).2.
Proof.
  induction ls as [|x ls IH]; intros w; [apply extends_refl|].
  rewrite mapM_cons. cbn [snd].
  eapply extends_trans; [apply itemToClient_extends|apply IH].
Qed.

Lemma reads_extend e r w :
  reads_only r = true → extends w (handle e r w).2.
Proof.
  intros Hr. destruct r as [p| |i|i b|i|i|i chunks|i flag|i flag|];
    try discriminate; cbn [handle].
  - unfold get_inventory. rewrite bind_run, db_values_run. cbn [fst snd].
    rewrite bind_run, bind_run, mapM_snapshot, ret_run. cbn [fst snd].
    apply mapM_itemToClient_extends.
  - apply get_item_extends.
  - rewrite get_photo_world. apply extends_refl.
  - apply get_search_extends.
  - rewrite post_search_get_search. apply get_search_extends.
  - apply extends_refl.
Qed.

(** The handlers that only read (the listing, the two item reads, the two
    searches, and the fallback for unmatched routes) keep the registry,
    the files and every existing object exactly as they were. *)
Theorem reads_change_nothing e r w :
  reads_only r = true → extends w (handle e r w).2.
Proof. apply reads_extend. Qed.

Lemma reads_change_nothing_witness :
  reads_only GetInventory = true ∧
  extends w_photo (handle env0 GetInventory w_photo).2.
Proof.
  split; [reflexivity|].
  exact (reads_change_nothing env0 GetInventory w_photo eq_refl).
Defined.

(** On a well-formed registry [GET /inventory] answers 200 with one view
    per live record, and the views are exactly the client views of the
    live records. *)
Theorem get_inventory_lists_records w :
  db_ok (λ p, p ≠ "") w →
  ∃ views,
    (get_inventory w).1 = Response 200 (BItems views) ∧
    length views = size (inventoryDB w) ∧
    ∀ v, v ∈ views ↔
         ∃ id l r, inventoryDB w !! id = Some l ∧
                   heap w !! l = Some (item_obj r) ∧
                   v = item_view r.
Proof.
  intros Hok.
  destruct (get_inventory_run w) as [Hresp _]; [by eapply db_ok_live|].
  eexists. split; [exact Hresp|]. split.
  - by rewrite !length_fmap, length_map_to_list.
  - intros v. rewrite list_elem_of_fmap. split.
    + intros (l & -> & Hl). apply list_elem_of_fmap in Hl as ([id l'] & -> & Hin).
      apply elem_of_map_to_list in Hin.
      destruct (Hok id l' Hin) as (r & Hl' & _ & _ & Hp).
      exists id, l', r. split_and!; [done..|]. cbn [snd].
      rewrite (obj_at_Some _ _ _ Hl'). apply client_view_item.
      intros Hempty. by apply (Hp "").
    + intros (id & l & r & Hid & Hl & ->).
      destruct (Hok id l Hid) as (r' & Hl' & _ & _ & Hp).
      assert (r' = r) as -> by (apply item_obj_inj; congruence).
      exists l. split.
      * rewrite (obj_at_Some _ _ _ Hl). symmetry. apply client_view_item.
        intros Hempty. by apply (Hp "").
      * apply list_elem_of_fmap. exists (id, l). split; [done|].
        by apply elem_of_map_to_list.
Qed.

Lemma get_inventory_lists_records_witness :
  ∃ views, (get_inventory w_photo).1 = Response 200 (BItems views) ∧
           length views = size (inventoryDB w_photo).
Proof.
  destruct (get_inventory_lists_records w_photo w_photo_ok)
    as (views & Hresp & Hlen & _).
  exists views. split; [exact Hresp|exact Hlen].
Defined.

(** A search whose flag is absent or is not the string [on] is the item
    read: same answer, same resulting world. *)
Theorem search_without_flag_is_get w id flag :
  flag ≠ Some "on" →
  get_search (Some id) flag w = get_item id w ∧
  post_search (Some id) flag w = get_item id w.
Proof.
  intros Hflag. rewrite post_search_get_search.
  assert (get_search (Some id) flag w = get_item id w) as H; [|done].
  unfold get_item. rewrite bind_run, db_get_run. cbn [fst snd].
  destruct (inventoryDB w !! id) as [l|] eqn:Hid.
  - rewrite (get_search_found (Some id) flag l), json_item_run by done.
    unfold search_view, search_events.
    rewrite bool_decide_eq_false_2 by done. cbn [andb].
    by rewrite app_nil_r.
  - by rewrite get_search_missing.
Qed.

Lemma search_without_flag_is_get_witness :
  Some "off" ≠ Some "on" ∧
  get_search (Some "id-1") (Some "off") w_photo = get_item "id-1" w_photo.
Proof.
  assert (H : Some "off" ≠ Some "on") by discriminate.
  split; [exact H|].
  exact (proj1 (search_without_flag_is_get w_photo "id-1" (Some "off") H)).
Defined.

(** ** Deleting and updating, then reading *)

(** Once a live record is deleted, the registry has one record fewer and
    the id is not found any more: reading it, updating it, replacing its
    photo and deleting it again are all answered 404. *)
Theorem delete_then_not_found e e' w id l b chunks :
  inventoryDB w !! id = Some l →
  S (size (inventoryDB (delete_item e id w).2)) = size (inventoryDB w) ∧
  get_item id (delete_item e id w).2 = (not_found, (delete_item e id w).2) ∧
  put_item id b (delete_item e id w).2 = (not_found, (delete_item e id w).2) ∧
  put_photo e' id chunks (delete_item e id w).2
    = (not_found, (delete_item e id w).2) ∧
  delete_item e' id (delete_item e id w).2
    = (not_found, (delete_item e id w).2).
Proof.
  intros Hid.
  assert (Hgone : inventoryDB (delete_item e id w).2 !! id = None).
  { rewrite (delete_item_found e id l) by done. apply lookup_delete_eq. }
  split_and!.
  - rewrite (delete_item_found e id l) by done. cbn [snd inventoryDB].
    rewrite map_size_delete_Some by eauto.
    assert (size (inventoryDB w) ≠ 0); [|lia].
    intros Hz%map_size_empty_inv. rewrite Hz in Hid. by rewrite lookup_empty in Hid.
  - unfold get_item. rewrite bind_run, db_get_run. cbn [fst snd].
    by rewrite Hgone.
  - by apply put_item_missing.
  - by apply put_photo_missing.
  - by apply delete_item_missing.
Qed.

Lemma delete_then_not_found_witness :
  inventoryDB w_photo !! "id-1" = Some 1%positive ∧
  get_item "id-1" (delete_item env0 "id-1" w_photo).2
  = (not_found, (delete_item env0 "id-1" w_photo).2).
Proof.
  split; [exact w_photo_db|].
  exact (proj1 (proj2 (delete_then_not_found env0 env0 w_photo "id-1" 1
                         (UpdateBody None None) [] w_photo_db))).
Defined.

Lemma updated_twice old v : updated (updated old v) v = updated old v.
Proof. by destruct v as [[|[|a s]]|]. Qed.

Lemma put_item_partial_update_frame w id l r b :
  inventoryDB w !! id = Some l →
  heap w !! l = Some (item_obj r) →
  heap (put_item id b w).2 !! l
    = Some (item_obj (Item (item_id r) (updated (item_name r) (b_name b))
                           (updated (item_description r) (b_description b))
                           (item_photoPath r))) ∧
  (put_item id b w).1
    = Response 200 (BItem (client_view (item_obj
        (Item (item_id r) (updated (item_name r) (b_name b))
              (updated (item_description r) (b_description b))
              (item_photoPath r))))) ∧
  inventoryDB (put_item id b w).2 = inventoryDB w.
Proof.
  intros Hid Hl. rewrite (put_item_found id b l), json_item_run by done.
  cbn [fst snd heap inventoryDB].
  assert (Hnew : alter (assign_if_truthy "description" (b_description b)
                        ∘ assign_if_truthy "name" (b_name b)) l (heap w) !! l
                 = Some (item_obj
                     (Item (item_id r) (updated (item_name r) (b_name b))
                        (updated (item_description r) (b_description b))
                        (item_photoPath r)))).
  { rewrite lookup_alter_eq, Hl. cbn [fmap option_fmap option_map].
    unfold compose. by rewrite assign_name, assign_description. }
  split_and!; [|unfold obj_at; cbn [heap]; by rewrite Hnew|done].
  rewrite lookup_insert_ne; [done|]. intros Heq.
  pose proof (is_fresh (dom (alter (assign_if_truthy "description" (b_description b)
                        ∘ assign_if_truthy "name" (b_name b)) l (heap w)))) as Hf.
  rewrite Heq in Hf. apply Hf, elem_of_dom. rewrite Hnew. eauto.
Qed.

(** After an update of a live record, reading the item answers the view
    the update answered, and repeating the same update leaves the record
    as the first one left it. *)
Theorem put_item_then_get_item w id l r b :
  inventoryDB w !! id = Some l →
  heap w !! l = Some (item_obj r) →
  (get_item id (put_item id b w).2).1 = Response 200 (body (put_item id b w).1) ∧
  heap (put_item id b (put_item id b w).2).2 !! l
  = heap (put_item id b w).2 !! l.
Proof.
  intros Hid Hl.
  destruct (put_item_partial_update_frame w id l r b Hid Hl)
    as (Hl1 & Hresp & Hdb).
  split.
  - unfold get_item. rewrite bind_run, db_get_run. cbn [fst snd].
    rewrite Hdb, Hid, json_item_run. cbn [fst].
    by rewrite (obj_at_Some _ _ _ Hl1), Hresp.
  - assert (Hid1 : inventoryDB (put_item id b w).2 !! id = Some l)
      by (by rewrite Hdb).
    destruct (put_item_partial_update_frame _ id l _ b Hid1 Hl1)
      as (Hl2 & _ & _).
    rewrite Hl2, Hl1. cbn [item_id item_name item_description item_photoPath].
    by rewrite !updated_twice.
Qed.

Lemma put_item_then_get_item_witness :
  inventoryDB w_photo !! "id-1" = Some 1%positive ∧
  (get_item "id-1" (put_item "id-1" (UpdateBody (Some (JStr "Gadget")) None)
                       w_photo).2).1
  = Response 200 (body (put_item "id-1" (UpdateBody (Some (JStr "Gadget")) None)
                          w_photo).1).
Proof.
  split; [exact w_photo_db|].
  exact (proj1 (put_item_then_get_item w_photo "id-1" 1 item_photo
                  (UpdateBody (Some (JStr "Gadget")) None)
                  w_photo_db w_photo_heap)).
Defined.

(** ** Photo replacement, then reading *)

Lemma length_append (a b : string) :
  String.length (a +:+ b) = String.length a + String.length b.
Proof.
  induction a as [|x a IH]; [done|].
  change (S (String.length (a +:+ b)) = S (String.length a + String.length b)).
  by f_equal.
Qed.

Lemma append_inj_r (s1 s2 t : string) : s1 +:+ t = s2 +:+ t → s1 = s2.
Proof.
  revert s2. induction s1 as [|a s1 IH]; intros [|b s2] H; [done| | |].
  - apply (f_equal String.length) in H.
    change (String.length t = S (String.length (s2 +:+ t))) in H.
    rewrite length_append in H. lia.
  - apply (f_equal String.length) in H.
    change (S (String.length (s1 +:+ t)) = String.length t) in H.
    rewrite length_append in H. lia.
  - change (String a (s1 +:+ t) = String b (s2 +:+ t)) in H.
    injection H as -> H. f_equal. by apply IH.
Qed.

(** For one item and one cache directory, the file name of a replacement
    determines the clock value it was built from. *)
Lemma new_photo_path_inj e1 e2 id :
  options_cache e1 = options_cache e2 →
  new_photo_path e1 id = new_photo_path e2 id →
  date_now e1 = date_now e2.
Proof.
  unfold new_photo_path, path_join. intros -> H.
  do 5 apply (inj (String.append _)) in H.
  apply append_inj_r in H. by apply (inj pretty) in H.
Qed.

(** After a photo replacement with a non-empty body whose write succeeds,
    [GET /inventory/:id/photo] answers 200 with exactly the bytes sent,
    provided [res.sendFile] does not refuse the path of the new file. *)
Theorem put_photo_then_get_photo e e' w id l r chunks :
  inventoryDB w !! id = Some l →
  heap w !! l = Some (item_obj r) →
  concat chunks ≠ [] →
  write_ok e = true →
  sendFile_refuses e' (new_photo_path e id) = false →
  (get_photo e' id (put_photo e id chunks w).2).1
  = Response 200 (BFile (concat chunks)).
Proof.
  intros Hid Hl Hc Hw Hsend.
  set (w1 := (put_photo e id chunks w).2).
  assert (Hid1 : inventoryDB w1 !! id = Some l).
  { unfold w1. by rewrite (put_photo_found e id l). }
  assert (Hl1 : heap w1 !! l
                = Some (item_obj (Item (item_id r) (item_name r)
                          (item_description r) (Some (new_photo_path e id))))).
  { unfold w1. rewrite (put_photo_found e id l) by done. rewrite Hw.
    cbn [snd heap]. by rewrite lookup_alter_eq, Hl. }
  assert (Hd1 : disk w1 !! new_photo_path e id = Some (concat chunks)).
  { unfold w1. rewrite (put_photo_found e id l) by done. rewrite Hw.
    cbn [snd disk]. apply lookup_insert_eq. }
  rewrite (get_photo_answer e' w1 id l _ Hid1 Hl1).
  - cbn [item_photoPath]. by rewrite Hsend, Hd1.
  - cbn [item_photoPath]. intros [= Heq].
    by apply (new_photo_path_nonempty e id).
Qed.

Lemma put_photo_then_get_photo_witness :
  inventoryDB w_photo !! "id-1" = Some 1%positive ∧
  sendFile_refuses env0 (new_photo_path env0 "id-1") = false ∧
  (get_photo env0 "id-1" (put_photo env0 "id-1" [[x03]; [x04]] w_photo).2).1
  = Response 200 (BFile [x03; x04]).
Proof.
  split; [exact w_photo_db|].
  assert (Hsend : sendFile_refuses env0 (new_photo_path env0 "id-1") = false)
    by (vm_compute; reflexivity).
  split; [exact Hsend|].
  refine (put_photo_then_get_photo env0 env0 w_photo "id-1" 1 item_photo
            [[x03]; [x04]] w_photo_db w_photo_heap _ eq_refl Hsend).
  discriminate.
Defined.

(** The first photo of a record that has none: the replacement unlinks
    nothing, writes the new file, then assigns its path to the record; no
    other file changes. *)
Theorem put_photo_first_photo e w id l r chunks :
  inventoryDB w !! id = Some l →
  heap w !! l = Some (item_obj r) →
  item_photoPath r = None →
  concat chunks ≠ [] →
  write_ok e = true →
  (put_photo e id chunks w).1 = Response 200 (BMessage "Photo updated") ∧
  trace (put_photo e id chunks w).2
    = trace w ++ [EWriteFile (new_photo_path e id) true;
                  ESetField l "photoPath" (JStr (new_photo_path e id))] ∧
  disk (put_photo e id chunks w).2
    = <[new_photo_path e id := concat chunks]> (disk w) ∧
  heap (put_photo e id chunks w).2 !! l
    = Some (item_obj (Item (item_id r) (item_name r) (item_description r)
                           (Some (new_photo_path e id)))).
Proof.
  intros Hid Hl Hp Hc Hw. rewrite (put_photo_found e id l) by done.
  rewrite Hw. cbn [fst snd heap inventoryDB disk trace].
  rewrite (photoPath_of_item _ _ _ Hl), Hp.
  split_and!; [done..|]. by rewrite lookup_alter_eq, Hl.
Qed.

Lemma put_photo_first_photo_witness :
  item_photoPath (Item "id-1" "Widget" "" None) = None ∧
  disk (put_photo env0 "id-1" [[x03]]
          (handle env0 (PostRegister widget) empty_world).2).2
  = <[new_photo_path env0 "id-1" := [x03]]>
      (disk (handle env0 (PostRegister widget) empty_world).2).
Proof.
  split; [reflexivity|].
  refine (proj1 (proj2 (proj2
            (put_photo_first_photo env0
               (handle env0 (PostRegister widget) empty_world).2 "id-1" 1
               (Item "id-1" "Widget" "" None) [[x03]] _ _ eq_refl _ eq_refl)))).
  - vm_compute. reflexivity.
  - vm_compute. reflexivity.
  - discriminate.
Defined.

(** A photo replacement whose write fails is answered 500; it changes no
    object and not the registry, writes no file, and the only file that
    may be gone is the previous photo, which it had unlinked before the
    write. *)
Theorem put_photo_failed_write e w id l r chunks :
  inventoryDB w !! id = Some l →
  heap w !! l = Some (item_obj r) →
  item_photoPath r ≠ Some "" →
  concat chunks ≠ [] →
  write_ok e = false →
  (put_photo e id chunks w).1 = Response 500 (BError "Failed to save photo") ∧
  heap (put_photo e id chunks w).2 = heap w ∧
  inventoryDB (put_photo e id chunks w).2 = inventoryDB w ∧
  disk (put_photo e id chunks w).2
    = match item_photoPath r with
      | Some p => if unlink_succeeds e w p then delete p (disk w) else disk w
      | None => disk w
      end.
Proof.
  intros Hid Hl Hp Hc Hw. rewrite (put_photo_found e id l) by done.
  rewrite Hw. cbn [fst snd heap inventoryDB disk].
  by rewrite (photoPath_of_item _ _ _ Hl), released_disk_item.
Qed.

Lemma put_photo_failed_write_witness :
  write_ok env_write_fails = false ∧
  heap (put_photo env_write_fails "id-1" [[x03]] w_photo).2 = heap w_photo.
Proof.
  split; [reflexivity|].
  refine (proj1 (proj2 (put_photo_failed_write env_write_fails w_photo "id-1" 1
                          item_photo [[x03]] w_photo_db w_photo_heap _ _
                          eq_refl))).
  - discriminate.
  - discriminate.
Defined.

(** Two replacements in a row, at different clock values, the second
    unlink succeeding: afterwards the file of the first replacement is
    gone, the file of the second holds the second body, and the record
    refers to it. *)
Theorem put_photo_twice e1 e2 w id l r chunks1 chunks2 :
  inventoryDB w !! id = Some l →
  heap w !! l = Some (item_obj r) →
  concat chunks1 ≠ [] →
  concat chunks2 ≠ [] →
  write_ok e1 = true →
  write_ok e2 = true →
  unlink_ok e2 = true →
  options_cache e1 = options_cache e2 →
  date_now e1 ≠ date_now e2 →
  disk (put_photo e2 id chunks2 (put_photo e1 id chunks1 w).2).2
    !! new_photo_path e1 id = None ∧
  disk (put_photo e2 id chunks2 (put_photo e1 id chunks1 w).2).2
    !! new_photo_path e2 id = Some (concat chunks2) ∧
  heap (put_photo e2 id chunks2 (put_photo e1 id chunks1 w).2).2 !! l
    = Some (item_obj (Item (item_id r) (item_name r) (item_description r)
                           (Some (new_photo_path e2 id)))).
Proof.
  intros Hid Hl Hc1 Hc2 Hw1 Hw2 Hu2 Hcache Hnow.
  assert (Hpaths : new_photo_path e2 id ≠ new_photo_path e1 id).
  { intros Heq. apply Hnow. symmetry. by eapply new_photo_path_inj. }
  set (w1 := (put_photo e1 id chunks1 w).2).
  assert (Hid1 : inventoryDB w1 !! id = Some l).
  { unfold w1. by rewrite (put_photo_found e1 id l). }
  assert (Hl1 : heap w1 !! l
                = Some (item_obj (Item (item_id r) (item_name r)
                          (item_description r) (Some (new_photo_path e1 id))))).
  { unfold w1. rewrite (put_photo_found e1 id l) by done. rewrite Hw1.
    cbn [snd heap]. by rewrite lookup_alter_eq, Hl. }
  assert (Hd1 : is_Some (disk w1 !! new_photo_path e1 id)).
  { unfold w1. rewrite (put_photo_found e1 id l) by done. rewrite Hw1.
    cbn [snd disk]. rewrite lookup_insert_eq. eauto. }
  rewrite (put_photo_found e2 id l) by done. rewrite Hw2.
  cbn [snd heap disk]. rewrite (photoPath_of_item _ _ _ Hl1).
  cbn [item_photoPath]. rewrite released_disk_item
    by (intros [= Heq]; by apply (new_photo_path_nonempty e1 id)).
  unfold unlink_succeeds. rewrite Hu2, bool_decide_eq_true_2 by done.
  cbn [andb]. split_and!.
  - rewrite lookup_insert_ne by done. apply lookup_delete_eq.
  - apply lookup_insert_eq.
  - by rewrite lookup_alter_eq, Hl1.
Qed.

Lemma put_photo_twice_witness :
  date_now env0 ≠ date_now env_write_fails ∧
  disk (put_photo (Env "/cache" "id-2" 1700000000001 true true) "id-1" [[x04]]
          (put_photo env0 "id-1" [[x03]] w_photo).2).2
    !! new_photo_path env0 "id-1" = None.
Proof.
  assert (H : date_now env0 ≠ date_now env_write_fails) by discriminate.
  split; [exact H|].
  refine (proj1 (put_photo_twice env0
            (Env "/cache" "id-2" 1700000000001 true true) w_photo "id-1" 1
            item_photo [[x03]] [[x04]] w_photo_db w_photo_heap _ _
            eq_refl eq_refl eq_refl eq_refl H)).
  - discriminate.
  - discriminate.
Defined.

(** ** Requests do not interfere across records *)

(** A request leaves every live record other than the one it writes to
    in place: the same id maps to the same object with the same
    properties. *)
Theorem other_records_untouched e r w id l o :
  db_ok (λ _, True) w →
  inventoryDB w !! id = Some l →
  heap w !! l = Some o →
  writes_to e r ≠ Some id →
  inventoryDB (handle e r w).2 !! id = Some l ∧
  heap (handle e r w).2 !! l = Some o.
Proof.
  intros Hok Hid Hl Hr.
  assert (Hread : ∀ w', extends w w' →
            inventoryDB w' !! id = Some l ∧ heap w' !! l = Some o).
  { intros w' (Hdb & _ & Hh). rewrite Hdb. eauto. }
  destruct r as [p| |i|i b|i|i|i chunks|i flag|i flag|];
    try (apply Hread; by apply reads_extend).
  - cbn [writes_to] in *. rewrite handle_register_run, form_store_run.
    cbn [fst snd]. set (w0 := World _ _ _ _).
    destruct (p_err p) eqn:He; [by rewrite form_destroy_run|].
    destruct (truthy (first_field (p_inventory_name p))) eqn:Hn.
    + rewrite register_accepted, json_item_run by done.
      cbn [snd heap inventoryDB w0].
      assert (fresh (dom (heap w)) ≠ l) by (apply fresh_loc_ne; eauto).
      split.
      * rewrite lookup_insert_ne by congruence. done.
      * rewrite lookup_insert_ne.
        -- by rewrite lookup_insert_ne.
        -- intros Heq.
           pose proof (is_fresh (dom (<[fresh (dom (heap w)) :=
                                        item_obj (new_item e p)]> (heap w))))
             as Hf.
           rewrite Heq in Hf. apply Hf, elem_of_dom.
           rewrite lookup_insert_ne by done. eauto.
    + rewrite register_rejected by done.
      by destruct (first_file (p_photo p)).
  - cbn [handle writes_to] in *.
    destruct (inventoryDB w !! i) as [l0|] eqn:Hi;
      [|by rewrite put_item_missing].
    assert (l0 ≠ l).
    { intros ->. apply Hr. f_equal. by eapply db_ok_injective. }
    rewrite (put_item_found i b l0), json_item_run by done.
    cbn [snd heap inventoryDB]. split; [done|].
    rewrite lookup_insert_ne.
    + by rewrite lookup_alter_ne.
    + rewrite dom_alter_L. apply fresh_loc_ne. eauto.
  - cbn [handle writes_to] in *.
    destruct (inventoryDB w !! i) as [l0|] eqn:Hi;
      [|by rewrite delete_item_missing].
    rewrite (delete_item_found e i l0) by done. cbn [snd heap inventoryDB].
    rewrite lookup_delete_ne by congruence. done.
  - cbn [handle writes_to] in *.
    destruct (inventoryDB w !! i) as [l0|] eqn:Hi;
      [|by rewrite put_photo_missing].
    destruct (concat chunks) as [|x xs] eqn:Hc;
      [by rewrite (put_photo_empty e i l0)|].
    rewrite (put_photo_found e i l0) by (done || by rewrite Hc).
    cbn [snd heap inventoryDB]. split; [done|].
    destruct (write_ok e); [|done].
    rewrite lookup_alter_ne; [done|].
    intros ->. apply Hr. f_equal. by eapply db_ok_injective.
Qed.

Lemma w_two_ok : db_ok (λ p, p ≠ "") w_two.
Proof.
  apply handle_db_ok;
    [apply new_photo_path_nonempty|discriminate|apply w_photo_ok].
Qed.

Lemma other_records_untouched_witness :
  writes_to env0 (PutPhoto "id-2" [[x03]]) ≠ Some "id-1" ∧
  inventoryDB w_two !! "id-2" = Some 3%positive ∧
  (handle env0 (PutPhoto "id-2" [[x03]]) w_two).1
  = Response 200 (BMessage "Photo updated") ∧
  obj_at (handle env0 (PutPhoto "id-2" [[x03]]) w_two).2 3 !! "photoPath"
  = Some (JStr "/cache/photo_id-2_1700000000000.jpg") ∧
  heap (handle env0 (PutPhoto "id-2" [[x03]]) w_two).2 !! 1%positive
  = Some (item_obj item_photo).
Proof.
  assert (H : writes_to env0 (PutPhoto "id-2" [[x03]]) ≠ Some "id-1")
    by discriminate.
  split; [exact H|].
  split; [vm_compute; reflexivity|].
  split; [vm_compute; reflexivity|].
  split; [vm_compute; reflexivity|].
  refine (proj2 (other_records_untouched env0 (PutPhoto "id-2" [[x03]])
                   w_two "id-1" 1 (item_obj item_photo)
                   (db_ok_weaken _ _ _ (λ _ _, I) w_two_ok) _ _ H)).
  - vm_compute. reflexivity.
  - vm_compute. reflexivity.
Defined.

(** ** The listing is complete *)

Lemma handle_keeps_key e r w id :
  is_Some (inventoryDB w !! id) →
  r ≠ DeleteItem id →
  is_Some (inventoryDB (handle e r w).2 !! id).
Proof.
  intros Hid Hr.
  assert (Hread : reads_only r = true →
                  is_Some (inventoryDB (handle e r w).2 !! id)).
  { intros H. by destruct (reads_extend e r w H) as (-> & _). }
  destruct r as [p| |i|i b|i|i|i chunks|i flag|i flag|];
    try (by apply Hread); clear Hread.
  - rewrite handle_register_run, form_store_run. cbn [fst snd].
    destruct (p_err p) eqn:He; [by rewrite form_destroy_run|].
    destruct (truthy (first_field (p_inventory_name p))) eqn:Hn.
    + rewrite register_accepted, json_item_run by done.
      cbn [snd inventoryDB]. rewrite lookup_insert. case_decide; eauto.
    + rewrite register_rejected by done.
      by destruct (first_file (p_photo p)).
  - cbn [handle]. destruct (inventoryDB w !! i) as [l0|] eqn:Hi;
      [|by rewrite put_item_missing].
    by rewrite (put_item_found i b l0), json_item_run.
  - cbn [handle]. destruct (inventoryDB w !! i) as [l0|] eqn:Hi;
      [|by rewrite delete_item_missing].
    rewrite (delete_item_found e i l0) by done. cbn [snd inventoryDB].
    rewrite lookup_delete_ne; [done|]. congruence.
  - cbn [handle]. destruct (inventoryDB w !! i) as [l0|] eqn:Hi;
      [|by rewrite put_photo_missing].
    destruct (concat chunks) as [|x xs] eqn:Hc;
      [by rewrite (put_photo_empty e i l0)|].
    by rewrite (put_photo_found e i l0) by (done || by rewrite Hc).
Qed.

(** On a well-formed registry, the id an accepted registration returns is
    listed right after the request. *)
Theorem registered_is_listed e p w :
  db_ok (λ _, True) w →
  p_err p = false →
  truthy (first_field (p_inventory_name p)) = true →
  randomUUID e ∈ listed (handle e (PostRegister p) w).2.
Proof.
  intros Hok He Hn. apply listed_live.
  { by apply handle_db_ok. }
  rewrite handle_register_run, He, form_store_run. cbn [fst snd].
  rewrite register_accepted, json_item_run by done.
  cbn [snd inventoryDB]. rewrite lookup_insert_eq. eauto.
Qed.

Lemma registered_is_listed_witness :
  "id-1" ∈ listed (handle env0 (PostRegister widget) empty_world).2.
Proof.
  exact (registered_is_listed env0 widget empty_world
           (db_ok_empty _) eq_refl eq_refl).
Defined.

(** On a well-formed registry, a listed id stays listed through every
    request other than its own deletion. *)
Theorem listed_until_deleted e r w id :
  db_ok (λ _, True) w →
  id ∈ listed w →
  r ≠ DeleteItem id →
  id ∈ listed (handle e r w).2.
Proof.
  intros Hok Hid Hr. apply listed_live.
  { apply handle_db_ok; [done|by destruct r|done]. }
  apply handle_keeps_key; [|done]. by apply listed_live.
Qed.

Lemma listed_until_deleted_witness :
  "id-1" ∈ listed w_photo ∧
  "id-1" ∈ listed (handle env_write_fails (PutPhoto "id-1" [[x03]]) w_photo).2.
Proof.
  assert (Hin : "id-1" ∈ listed w_photo).
  { change ("id-1" ∈ ["id-1"]). apply list_elem_of_singleton. reflexivity. }
  split; [exact Hin|].
  refine (listed_until_deleted env_write_fails (PutPhoto "id-1" [[x03]])
            w_photo "id-1" (db_ok_weaken _ _ _ (λ _ _, I) w_photo_ok) Hin _).
  discriminate.
Defined.

(** ** Witnesses of the invariants *)

Lemma responses_hide_photoPath_witness :
  hides_path (body (handle env0 GetInventory w_photo).1).
Proof.
  exact (responses_hide_photoPath env0 GetInventory w_photo
           (db_ok_weaken _ _ _ (λ _ _, I) w_photo_ok)).
Defined.

Lemma no_dangling_without_failed_write_witness :
  let rs := [(env0, PostRegister widget_with_photo);
             (env_second, PutPhoto "id-1" [[x03]]);
             (env0, GetItem "id-1")] in
  inventoryDB (run rs empty_world).2 !! "id-1" = Some 1%positive ∧
  obj_at (run rs empty_world).2 1 !! "photoPath"
    = Some (JStr "/cache/photo_id-1_1700000000001.jpg") ∧
  is_Some (disk (run rs empty_world).2
             !! "/cache/photo_id-1_1700000000001.jpg").
Proof.
  cbv zeta.
  assert (Hid : inventoryDB (run [(env0, PostRegister widget_with_photo);
                                  (env_second, PutPhoto "id-1" [[x03]]);
                                  (env0, GetItem "id-1")] empty_world).2
                  !! "id-1" = Some 1%positive) by (vm_compute; reflexivity).
  assert (Hp : obj_at (run [(env0, PostRegister widget_with_photo);
                            (env_second, PutPhoto "id-1" [[x03]]);
                            (env0, GetItem "id-1")] empty_world).2 1
                 !! "photoPath"
               = Some (JStr "/cache/photo_id-1_1700000000001.jpg"))
    by (vm_compute; reflexivity).
  split; [exact Hid|]. split; [exact Hp|].
  refine (no_dangling_without_failed_write
            [(env0, PostRegister widget_with_photo);
             (env_second, PutPhoto "id-1" [[x03]]);
             (env0, GetItem "id-1")] _ _ "id-1" 1%positive _ Hid Hp _).
  - repeat constructor.
  - cbn [well_behaved]. split_and!; try done.
    + intros f _ id (l & Hl & _). unfold empty_world in Hl.
      cbn [inventoryDB] in Hl. rewrite lookup_empty in Hl. discriminate.
    + intros [].
    + intros id' Hne (l & Hl & _).
      change (inventoryDB w_photo !! id' = Some l) in Hl.
      assert (Hdom : is_Some (inventoryDB w_photo !! id')) by eauto.
      apply (listed_live w_photo id'
               (db_ok_weaken _ _ _ (λ _ _, I) w_photo_ok)) in Hdom.
      change (id' ∈ ["id-1"]) in Hdom.
      apply list_elem_of_singleton in Hdom. done.
    + intros (_ & _ & Hw). discriminate.
    + intros [].
  - discriminate.
Defined.
